(** * ThrottleBox: the token-bucket rate limiter, the CONNECT peek parser
      and the per-connection worker, embedded from the C++ sources

    Sources embedded here:
    - [include/throttlebox/rate_limiter.hpp]: [RateLimitPolicy], [TokenBucket],
      the members of [RateLimiter];
    - [src/rate_limiter.cpp]: [allow], [checkAndUpdateBucket], [refillBucket],
      [setClientPolicy], [cleanupExpired];
    - [src/throttlebox.cpp]: [extractClientInfo], [handleClient],
      [forwardTraffic];
    - [src/metrics.cpp]: [Metrics::Metrics], [incrementCounter].

    Conventions.
    - [double] is IEEE-754 binary64: Rocq's primitive [float], whose operations
      are the correctly rounded ones the C++ code runs.
    - [std::chrono::steady_clock::time_point] and durations are counts of
      nanoseconds, as [Z]; the value-initialised [time_point{}] is [0].
    - [uint64_t] and [uint16_t] wrap around; the wrap is written out.
    - [std::unordered_map<std::string, V>] is [gmap string V].
    - Every member function of [RateLimiter] does its work on the tables
      under [mutex_] and on the counters under [statsMutex_]; the operations
      are embedded as functions on the limiter's state, one call after the
      other.  The clock is an input: each place where the code calls
      [steady_clock::now()] is an argument of the embedding.
    - Signed integers are taken inside their range (clock values and their
      differences fit [int64_t]); exceptions ([std::bad_alloc]) are left
      out; [x << 8] on a negative [int] is the arithmetic shift the
      compilers implement. *)

From Stdlib Require Import ZArith Lia Bool List.
From Stdlib Require Import Floats Uint63 SpecFloat.
From Stdlib Require Import Strings.Byte.
From stdpp Require Import gmap strings list fin_maps.

Local Open Scope Z_scope.

(** ** Numbers *)

Module Num.

(** Conversion of a signed C++ integer ([int], [int64_t]) to [double]:
    round-to-nearest on the magnitude, sign restored. *)
Definition double_of_Z (z : Z) : float :=
  if z <? 0 then PrimFloat.opp (PrimFloat.of_uint63 (Uint63.of_Z (- z)))
  else PrimFloat.of_uint63 (Uint63.of_Z z).

(** [std::min(a, b)] is [(b < a) ? b : a]. *)
Definition std_min (a b : float) : float :=
  if PrimFloat.ltb b a then b else a.

(** [a >= b] on [double]. *)
Definition geb (a b : float) : bool := PrimFloat.leb b a.

Definition UINT64_MOD : Z := 2 ^ 64.
Definition UINT64_MAX : Z := 2 ^ 64 - 1.

(** [x++] on a [uint64_t]. *)
Definition uint64_incr (x : Z) : Z := (x + 1) mod UINT64_MOD.

(** Conversion of an [int] to [uint16_t]. *)
Definition to_uint16 (x : Z) : Z := x mod 2 ^ 16.

End Num.

(** ** Time: [std::chrono] on the steady clock *)

Module Chrono.

Definition time_point := Z.
Definition duration := Z.

(** [time_point{}]: the clock's epoch. *)
Definition epoch : time_point := 0.

Definition NS_PER_MS : Z := 1000000.
Definition NS_PER_SEC : Z := 1000000000.

(** [duration_cast<milliseconds>(d).count()]: truncation towards zero. *)
Definition to_milliseconds (d : duration) : Z := Z.quot d NS_PER_MS.

(** [std::chrono::seconds(n)]. *)
Definition seconds (n : Z) : duration := n * NS_PER_SEC.

(** [std::chrono::hours(n)]. *)
Definition hours (n : Z) : duration := n * 3600 * NS_PER_SEC.

End Chrono.

(** ** The rate limiter ([rate_limiter.hpp], [rate_limiter.cpp]) *)

Record RateLimitPolicy := mkPolicy {
  maxMessagesPerSec : float;
  burstSize : Z;
  blockDurationSec : Z
}.

(** The member initialisers of [struct RateLimitPolicy]. *)
Definition RateLimitPolicy_default : RateLimitPolicy :=
  {| maxMessagesPerSec := 10%float; burstSize := 20; blockDurationSec := 60 |}.

Record TokenBucket := mkBucket {
  tokens : float;
  lastRefill : Chrono.time_point;
  blockedUntil : Chrono.time_point;
  isBlocked : bool
}.

(** A value-initialised [TokenBucket], as [buckets_[key]] inserts it. *)
Definition TokenBucket_default : TokenBucket :=
  {| tokens := 0%float; lastRefill := Chrono.epoch;
     blockedUntil := Chrono.epoch; isBlocked := false |}.

Record RateLimiter := mkLimiter {
  defaultPolicy_ : RateLimitPolicy;
  clientPolicies_ : gmap string RateLimitPolicy;
  buckets_ : gmap string TokenBucket;
  allowedMessages_ : Z;
  blockedMessages_ : Z
}.

(** [RateLimiter::RateLimiter(defaultPolicy)]. *)
Definition RateLimiter_new (defaultPolicy : RateLimitPolicy) : RateLimiter :=
  {| defaultPolicy_ := defaultPolicy; clientPolicies_ := ∅; buckets_ := ∅;
     allowedMessages_ := 0; blockedMessages_ := 0 |}.

(** [RateLimiter::refillBucket]; [now] is the clock value this function
    reads. *)
Definition refillBucket (now : Chrono.time_point) (policy : RateLimitPolicy)
    (bucket : TokenBucket) : TokenBucket :=
  if lastRefill bucket =? Chrono.epoch then
    {| tokens := Num.double_of_Z (burstSize policy);
       lastRefill := now;
       blockedUntil := blockedUntil bucket;
       isBlocked := isBlocked bucket |}
  else
    let elapsed := Chrono.to_milliseconds (now - lastRefill bucket) in
    let secondsElapsed := PrimFloat.div (Num.double_of_Z elapsed) 1000%float in
    let tokensToAdd := PrimFloat.mul secondsElapsed (maxMessagesPerSec policy) in
    {| tokens := Num.std_min (Num.double_of_Z (burstSize policy))
                             (PrimFloat.add (tokens bucket) tokensToAdd);
       lastRefill := now;
       blockedUntil := blockedUntil bucket;
       isBlocked := isBlocked bucket |}.

(** The body of [RateLimiter::checkAndUpdateBucket] on the bucket that
    [buckets_[key]] refers to.  The function reads the clock once itself
    ([now]) and [refillBucket] reads it again ([nowRefill]). *)
Definition checkBucket (now nowRefill : Chrono.time_point)
    (policy : RateLimitPolicy) (bucket0 : TokenBucket) : bool * TokenBucket :=
  let bucket := refillBucket nowRefill policy bucket0 in
  if isBlocked bucket && (now <? blockedUntil bucket) then (false, bucket)
  else
    let bucket :=
      if isBlocked bucket && (blockedUntil bucket <=? now) then
        {| tokens := tokens bucket; lastRefill := lastRefill bucket;
           blockedUntil := blockedUntil bucket; isBlocked := false |}
      else bucket in
    if Num.geb (tokens bucket) 1%float then
      (true, {| tokens := PrimFloat.sub (tokens bucket) 1%float;
                lastRefill := lastRefill bucket;
                blockedUntil := blockedUntil bucket;
                isBlocked := isBlocked bucket |})
    else if 0 <? blockDurationSec policy then
      (false, {| tokens := tokens bucket; lastRefill := lastRefill bucket;
                 blockedUntil := now + Chrono.seconds (blockDurationSec policy);
                 isBlocked := true |})
    else (false, bucket).

Definition set_buckets (m : gmap string TokenBucket) (s : RateLimiter) : RateLimiter :=
  {| defaultPolicy_ := defaultPolicy_ s; clientPolicies_ := clientPolicies_ s;
     buckets_ := m;
     allowedMessages_ := allowedMessages_ s; blockedMessages_ := blockedMessages_ s |}.

(** [RateLimiter::checkAndUpdateBucket]: [buckets_[key]] inserts a
    value-initialised bucket when the key is absent. *)
Definition checkAndUpdateBucket (now nowRefill : Chrono.time_point)
    (key : string) (policy : RateLimitPolicy) (s : RateLimiter) : bool * RateLimiter :=
  let bucket0 := default TokenBucket_default (buckets_ s !! key) in
  let r := checkBucket now nowRefill policy bucket0 in
  (fst r, set_buckets (<[key := snd r]> (buckets_ s)) s).

(** [std::string key = clientId.empty() ? ip : clientId]. *)
Definition bucket_key (ip clientId : string) : string :=
  if String.eqb clientId "" then ip else clientId.

(** The policy [allow] selects: [clientPolicies_.find(clientId)], else the
    default. *)
Definition effective_policy (s : RateLimiter) (clientId : string) : RateLimitPolicy :=
  match clientPolicies_ s !! clientId with
  | Some p => p
  | None => defaultPolicy_ s
  end.

(** [RateLimiter::allow]. *)
Definition allow (now nowRefill : Chrono.time_point) (ip clientId : string)
    (s : RateLimiter) : bool * RateLimiter :=
  let key := bucket_key ip clientId in
  let policy := effective_policy s clientId in
  let '(allowed, s1) := checkAndUpdateBucket now nowRefill key policy s in
  (allowed,
   {| defaultPolicy_ := defaultPolicy_ s1; clientPolicies_ := clientPolicies_ s1;
      buckets_ := buckets_ s1;
      allowedMessages_ :=
        if allowed then Num.uint64_incr (allowedMessages_ s1) else allowedMessages_ s1;
      blockedMessages_ :=
        if allowed then blockedMessages_ s1 else Num.uint64_incr (blockedMessages_ s1) |}).

(** [RateLimiter::setClientPolicy]. *)
Definition setClientPolicy (clientId : string) (policy : RateLimitPolicy)
    (s : RateLimiter) : RateLimiter :=
  {| defaultPolicy_ := defaultPolicy_ s;
     clientPolicies_ := <[clientId := policy]> (clientPolicies_ s);
     buckets_ := buckets_ s;
     allowedMessages_ := allowedMessages_ s; blockedMessages_ := blockedMessages_ s |}.

(** The test of the loop in [cleanupExpired]:
    [now - it->second.lastRefill > std::chrono::hours(1)]. *)
Definition expired (now : Chrono.time_point) (bucket : TokenBucket) : bool :=
  Chrono.hours 1 <? now - lastRefill bucket.

(** [RateLimiter::cleanupExpired]: the erase loop keeps the entries that fail
    the test. *)
Definition cleanupExpired (now : Chrono.time_point) (s : RateLimiter) : RateLimiter :=
  set_buckets (filter (λ kv, expired now kv.2 = false) (buckets_ s)) s.

(** [RateLimiter::getStats]. *)
Record Stats := mkStats {
  totalClients : nat;
  blockedClients : nat;
  allowedMessages : Z;
  blockedMessages : Z
}.

Definition getStats (now : Chrono.time_point) (s : RateLimiter) : Stats :=
  {| totalClients := size (buckets_ s);
     blockedClients :=
       size (filter (λ kv, isBlocked kv.2 && (now <? blockedUntil kv.2) = true)
                    (buckets_ s));
     allowedMessages := allowedMessages_ s;
     blockedMessages := blockedMessages_ s |}.

(** A call to [allow] with the two clock values it reads, and a run of such
    calls on one limiter. *)
Record AllowCall := mkCall {
  call_now : Chrono.time_point;
  call_nowRefill : Chrono.time_point;
  call_ip : string;
  call_clientId : string
}.

Definition allow_call (c : AllowCall) (s : RateLimiter) : bool * RateLimiter :=
  allow (call_now c) (call_nowRefill c) (call_ip c) (call_clientId c) s.

Fixpoint run_calls (calls : list AllowCall) (s : RateLimiter) : list bool * RateLimiter :=
  match calls with
  | [] => ([], s)
  | c :: calls =>
      let r := allow_call c s in
      let rs := run_calls calls (snd r) in
      (fst r :: fst rs, snd rs)
  end.

(** Calls of one client, given by the two clock values each call reads. *)
Definition calls_at (ip clientId : string)
    (times : list (Chrono.time_point * Chrono.time_point)) : list AllowCall :=
  map (λ t, mkCall t.1 t.2 ip clientId) times.

(** Calls in quick succession: each reads the refill clock not before, and
    less than a millisecond after, the previous refill ([last]). *)
Fixpoint rapid (last : Chrono.time_point)
    (times : list (Chrono.time_point * Chrono.time_point)) : Prop :=
  match times with
  | [] => True
  | t :: times => last ≤ t.2 < last + Chrono.NS_PER_MS ∧ rapid t.2 times
  end.

(** ** The metrics sink ([metrics.hpp], [metrics.cpp]) *)

Record Metrics := mkMetrics {
  counters_ : gmap string Z;
  gauges_ : gmap string Z
}.

(** [Metrics::Metrics()]. *)
Definition Metrics_new : Metrics :=
  {| counters_ :=
       <["total_connections" := 0]> (<["allowed_messages" := 0]>
       (<["blocked_messages" := 0]> (<["client_disconnects" := 0]> ∅)));
     gauges_ := <["active_connections" := 0]> (<["unique_clients" := 0]> ∅) |}.

(** [Metrics::incrementCounter]: the counter is created at 0 when it is
    missing, then incremented. *)
Definition incrementCounter (name : string) (m : Metrics) : Metrics :=
  let c := match counters_ m !! name with
           | None => <[name := 0]> (counters_ m)
           | Some _ => counters_ m
           end in
  {| counters_ := <[name := Num.uint64_incr (default 0 (c !! name))]> c;
     gauges_ := gauges_ m |}.

(** ** The proxy worker ([throttlebox.hpp], [throttlebox.cpp]) *)

Record ClientInfo := mkClientInfo {
  ip : string;
  clientId : string
}.

(** What a [recv] call delivers: an error ([-1]) or the bytes it wrote to the
    buffer (none at end of stream). *)
Inductive RecvResult :=
| RecvError
| RecvBytes (data : list byte).

(** The value [recv] returns. *)
Definition bytesRead (r : RecvResult) : Z :=
  match r with
  | RecvError => -1
  | RecvBytes data => Z.of_nat (length data)
  end.

Definition buffer (r : RecvResult) : list byte :=
  match r with
  | RecvError => []
  | RecvBytes data => data
  end.

Inductive Socket := ClientSocket | BrokerSocket.

(** The system calls of a worker that the properties below speak about. *)
Inductive SysCall :=
| SocketCreate (s : Socket)
| SocketClose (s : Socket)
| SocketSend (s : Socket) (data : list byte).

(** The outcome of [connectToBroker]. *)
Inductive BrokerConnect :=
| BrokerNoSocket          (* socket() failed *)
| BrokerUnreachable       (* inet_pton or connect failed: the socket is closed *)
| BrokerConnected.

Record ClientRead := mkClientRead {
  client_recv : RecvResult;        (* recv(clientSocket, ...) *)
  clock_check : Chrono.time_point; (* steady_clock::now() in checkAndUpdateBucket *)
  clock_refill : Chrono.time_point;(* steady_clock::now() in refillBucket *)
  broker_sent : Z                  (* what send(brokerSocket, ...) returns *)
}.

Record BrokerRead := mkBrokerRead {
  broker_recv : RecvResult;        (* recv(brokerSocket, ...) *)
  client_sent : Z                  (* what send(clientSocket, ...) returns *)
}.

(** What one iteration of the loop of [forwardTraffic] observes. *)
Record PumpStep := mkPumpStep {
  running : bool;                       (* running_ at the loop test *)
  activity : Z;                         (* the result of select *)
  client_ready : option ClientRead;     (* FD_ISSET(clientSocket) *)
  broker_ready : option BrokerRead      (* FD_ISSET(brokerSocket) *)
}.

(** What a worker observes of its environment. *)
Record ConnEnv := mkConnEnv {
  peer : option string;       (* getpeername and inet_ntop; None: getpeername failed *)
  peeked : RecvResult;        (* recv(socket, buffer, 1024, MSG_PEEK) *)
  broker : BrokerConnect;
  pump : list PumpStep
}.

Record ThrottleBox := mkThrottleBox {
  rateLimiter_ : RateLimiter;
  metrics_ : Metrics;
  syscalls : list SysCall     (* most recent last *)
}.

Definition sys (c : SysCall) (st : ThrottleBox) : ThrottleBox :=
  {| rateLimiter_ := rateLimiter_ st; metrics_ := metrics_ st;
     syscalls := syscalls st ++ [c] |}.

Definition count (name : string) (st : ThrottleBox) : ThrottleBox :=
  {| rateLimiter_ := rateLimiter_ st;
     metrics_ := incrementCounter name (metrics_ st);
     syscalls := syscalls st |}.

(** [ThrottleBox::ThrottleBox(config)]: the limiter is built from the global
    limits of the configuration. *)
Definition ThrottleBox_new (globalLimits : RateLimitPolicy) : ThrottleBox :=
  {| rateLimiter_ := RateLimiter_new globalLimits; metrics_ := Metrics_new;
     syscalls := [] |}.

Section Worker.

(** Whether plain [char] is a signed type on the platform. *)
Variable char_is_signed : bool.

(** A [char] of the buffer promoted to [int]. *)
Definition char_to_int (b : byte) : Z :=
  let v := Z.of_N (Byte.to_N b) in
  if char_is_signed && (128 <=? v) then v - 256 else v.

(** [buffer[i]]. *)
Definition at_ (buf : list byte) (i : Z) : byte :=
  nth (Z.to_nat i) buf "000"%byte.

(** [uint16_t clientIdLen = (buffer[pos] << 8) | buffer[pos + 1]]. *)
Definition clientIdLen (hi lo : byte) : Z :=
  Num.to_uint16 (Z.lor (Z.shiftl (char_to_int hi) 8) (char_to_int lo)).

(** [std::string(buffer + pos, n)]. *)
Definition string_at (buf : list byte) (pos n : Z) : string :=
  String.string_of_list_byte (take (Z.to_nat n) (drop (Z.to_nat pos) buf)).

(** The CONNECT parsing block of [extractClientInfo]: the value of
    [info.clientId] after it, given its value before. *)
Definition parseClientId (r : RecvResult) (clientId0 : string) : string :=
  if char_to_int (at_ (buffer r) 0) =? 16 then
    let pos := 10 in
    if pos + 2 <? bytesRead r then
      let len := clientIdLen (at_ (buffer r) pos) (at_ (buffer r) (pos + 1)) in
      let pos := pos + 2 in
      if pos + len <? bytesRead r then string_at (buffer r) pos len
      else clientId0
    else clientId0
  else clientId0.

(** [ThrottleBox::extractClientInfo]. *)
Definition extractClientInfo (peer : option string) (r : RecvResult)
    (info : ClientInfo) : bool * ClientInfo :=
  let info := {| ip := default "unknown" peer; clientId := clientId info |} in
  if bytesRead r <? 10 then (false, info)
  else
    let parsed := parseClientId r (clientId info) in
    let info := {| ip := ip info; clientId := parsed |} in
    let info :=
      if String.eqb (clientId info) "" then
        {| ip := ip info; clientId := "anonymous_" +:+ ip info |}
      else info in
    (true, info).

(** [ThrottleBox::connectToBroker]: whether a connected socket is returned. *)
Definition connectToBroker (b : BrokerConnect) (st : ThrottleBox) : bool * ThrottleBox :=
  match b with
  | BrokerNoSocket => (false, st)
  | BrokerUnreachable =>
      (false, sys (SocketClose BrokerSocket) (sys (SocketCreate BrokerSocket) st))
  | BrokerConnected => (true, sys (SocketCreate BrokerSocket) st)
  end.

(** The broker half of one iteration of [forwardTraffic]; [None] is
    [break]. *)
Definition pumpBroker (b : option BrokerRead) (st : ThrottleBox) : option ThrottleBox :=
  match b with
  | None => Some st
  | Some br =>
      if bytesRead (broker_recv br) <=? 0 then None
      else
        let st := sys (SocketSend ClientSocket (buffer (broker_recv br))) st in
        if client_sent br =? bytesRead (broker_recv br) then Some st else None
  end.

(** [ThrottleBox::forwardTraffic]: the loop runs over what it observes; the
    script running out stands for [running_] having become false. *)
Fixpoint forwardTraffic (info : ClientInfo) (steps : list PumpStep)
    (st : ThrottleBox) : ThrottleBox :=
  match steps with
  | [] => sys (SocketClose BrokerSocket) st
  | step :: steps =>
      if negb (running step) then sys (SocketClose BrokerSocket) st
      else if activity step <=? 0 then forwardTraffic info steps st
      else
        match client_ready step with
        | None =>
            match pumpBroker (broker_ready step) st with
            | Some st => forwardTraffic info steps st
            | None => sys (SocketClose BrokerSocket) st
            end
        | Some cr =>
            if bytesRead (client_recv cr) <=? 0 then sys (SocketClose BrokerSocket) st
            else
              let '(allowed, rl) :=
                allow (clock_check cr) (clock_refill cr) (ip info) (clientId info)
                      (rateLimiter_ st) in
              let st := {| rateLimiter_ := rl; metrics_ := metrics_ st;
                           syscalls := syscalls st |} in
              if negb allowed then
                forwardTraffic info steps (count "blocked_messages" st)
              else
                let st := count "allowed_messages" st in
                let st := sys (SocketSend BrokerSocket (buffer (client_recv cr))) st in
                if broker_sent cr =? bytesRead (client_recv cr) then
                  match pumpBroker (broker_ready step) st with
                  | Some st => forwardTraffic info steps st
                  | None => sys (SocketClose BrokerSocket) st
                  end
                else sys (SocketClose BrokerSocket) st
        end
  end.

(** [ThrottleBox::handleClient]. *)
Definition handleClient (env : ConnEnv) (st : ThrottleBox) : ThrottleBox :=
  let clientInfo := {| ip := ""; clientId := "" |} in
  let '(ok, clientInfo) := extractClientInfo (peer env) (peeked env) clientInfo in
  if negb ok then sys (SocketClose ClientSocket) st
  else
    let '(connected, st) := connectToBroker (broker env) st in
    if negb connected then sys (SocketClose ClientSocket) st
    else
      let st := forwardTraffic clientInfo (pump env) st in
      count "client_disconnects" (sys (SocketClose ClientSocket) st).

End Worker.

(** ** The single decision of the specification (section 4.1), phase by phase *)

Module Spec.

Inductive Decision := Allow | Deny.

Definition is_allow (d : Decision) : bool :=
  match d with Allow => true | Deny => false end.

(** The unset value of [last_refill]. *)
Definition unset (t : Chrono.time_point) : Prop := t = Chrono.epoch.

(** The elapsed time in seconds, at millisecond resolution. *)
Definition elapsed_seconds (now last : Chrono.time_point) : float :=
  PrimFloat.div (Num.double_of_Z (Chrono.to_milliseconds (now - last))) 1000%float.

(** Step 1, refill. *)
Definition refill (now : Chrono.time_point) (P : RateLimitPolicy) (B : TokenBucket)
    : TokenBucket :=
  if decide (unset (lastRefill B)) then
    mkBucket (Num.double_of_Z (burstSize P)) now (blockedUntil B) (isBlocked B)
  else
    mkBucket
      (Num.std_min (Num.double_of_Z (burstSize P))
         (PrimFloat.add (tokens B)
            (PrimFloat.mul (elapsed_seconds now (lastRefill B)) (maxMessagesPerSec P))))
      now (blockedUntil B) (isBlocked B).

(** Step 2, block check: deny at once, or go on with the bucket (unblocked
    when the block has run out). *)
Inductive Checked := DenyNow | GoOn (B : TokenBucket).

Definition block_check (now : Chrono.time_point) (B : TokenBucket) : Checked :=
  if isBlocked B then
    if decide (now < blockedUntil B) then DenyNow
    else GoOn (mkBucket (tokens B) (lastRefill B) (blockedUntil B) false)
  else GoOn B.

(** Step 3, token consumption. *)
Definition consume (now : Chrono.time_point) (P : RateLimitPolicy) (B : TokenBucket)
    : Decision * TokenBucket :=
  if Num.geb (tokens B) 1%float then
    (Allow, mkBucket (PrimFloat.sub (tokens B) 1%float)
              (lastRefill B) (blockedUntil B) (isBlocked B))
  else if decide (0 < blockDurationSec P) then
    (Deny, mkBucket (tokens B) (lastRefill B)
             (now + Chrono.seconds (blockDurationSec P)) true)
  else (Deny, B).

(** The three steps in order; [nowRefill] is the instant of the refill and
    [now] that of the block check and of the consumption. *)
Definition decide_at (now nowRefill : Chrono.time_point) (P : RateLimitPolicy)
    (B : TokenBucket) : Decision * TokenBucket :=
  let B1 := refill nowRefill P B in
  match block_check now B1 with
  | DenyNow => (Deny, B1)
  | GoOn B2 => consume now P B2
  end.

(** The parser of section 4.2 with the offset the specification names (14):
    first byte 0x10, a 16-bit big-endian length at the offset, then that many
    bytes; not recognised ([None]) when offset plus length exceeds the
    buffer. *)
Definition CLIENT_ID_OFFSET : nat := 14.

Definition be16 (hi lo : byte) : Z :=
  256 * Z.of_N (Byte.to_N hi) + Z.of_N (Byte.to_N lo).

Definition parse_connect (buf : list byte) : option string :=
  match buf with
  | x10 :: _ =>
      match drop CLIENT_ID_OFFSET buf with
      | hi :: lo :: payload =>
          let len := Z.to_nat (be16 hi lo) in
          if (len <=? length payload)%nat
          then Some (String.string_of_list_byte (take len payload))
          else None
      | _ => None
      end
  | _ => None
  end.

End Spec.

(** ** Concrete data used by the examples below *)

Module Data.

(** The policy of the end-to-end scenarios of the specification and of
    [testBasicRateLimiting]. *)
Definition P_scenario : RateLimitPolicy :=
  {| maxMessagesPerSec := 2%float; burstSize := 3; blockDurationSec := 1 |}.

Definition P_small : RateLimitPolicy :=
  {| maxMessagesPerSec := 10%float; burstSize := 5; blockDurationSec := 60 |}.

(** The policy of [testTokenRefill]: no blocking, only dropping. *)
Definition P_no_block : RateLimitPolicy :=
  {| maxMessagesPerSec := 10%float; burstSize := 2; blockDurationSec := 0 |}.

(** One second on the steady clock, as a starting instant. *)
Definition t0 : Chrono.time_point := 1000000000.

(** The limiter after one allowed message of client "c" under the default
    policy. *)
Definition after_one_allow : RateLimiter :=
  snd (allow t0 t0 "1.1.1.1" "c" (RateLimiter_new RateLimitPolicy_default)).

(** The limiter of the scenarios after four calls in a row: the bucket of "c"
    is empty and blocked until [t0 + 1s]. *)
Definition after_four : RateLimiter :=
  let s := RateLimiter_new P_scenario in
  let s := snd (allow t0 t0 "1.1.1.1" "c" s) in
  let s := snd (allow t0 t0 "1.1.1.1" "c" s) in
  let s := snd (allow t0 t0 "1.1.1.1" "c" s) in
  snd (allow t0 t0 "1.1.1.1" "c" s).

(** Scenarios 1 to 4 of the specification: three calls in quick succession,
    a fourth at once, a fifth 500 ms and a sixth 1100 ms after the fourth. *)
Definition at_time (t : Chrono.time_point) : AllowCall :=
  {| call_now := t; call_nowRefill := t; call_ip := "1.1.1.1"; call_clientId := "c" |}.

(** [testTokenRefill]: three calls at once, a fourth 200 ms later. *)
Definition refill_test_calls : list AllowCall :=
  [at_time t0; at_time t0; at_time t0; at_time (t0 + 200 * Chrono.NS_PER_MS)].

Definition scenario_calls : list AllowCall :=
  [at_time t0; at_time t0; at_time t0; at_time t0;
   at_time (t0 + 500 * Chrono.NS_PER_MS); at_time (t0 + 1100 * Chrono.NS_PER_MS)].

(** The CONNECT packet of [MockMQTTClient::sendMockConnectPacket]
    (tests/test_throttlebox.cpp): protocol "MQTT", level 4, keep-alive 60,
    Client-ID "test_client". *)
Definition mockConnect : list byte :=
  [x10; x1a; x00; x04; x4d; x51; x54; x54; x04; x00; x00; x3c; x00; x0b;
   x74; x65; x73; x74; x5f; x63; x6c; x69; x65; x6e; x74].

(** A CONNECT packet laid out as the architecture guide describes
    ([2-9] protocol name, [10] level, [11] flags, [12-13] keep-alive,
    [14-15] Client-ID length, [16+] Client-ID): protocol "MQIsdp", level 3,
    flags 0x02, keep-alive 60, Client-ID "c1", followed in the same peek
    by a five-byte PUBLISH packet. *)
Definition connect_v31 : list byte :=
  [x10; x10; x00; x06; x4d; x51; x49; x73; x64; x70; x03; x02; x00; x3c;
   x00; x02; x63; x31; x30; x03; x00; x01; x61].

(** Ten bytes that are no CONNECT packet. *)
Definition not_connect : list byte :=
  [x30; x08; x00; x04; x74; x65; x73; x74; x68; x69].

Definition short_peek : list byte := [x10; x1a; x00; x04].

(** A 23-byte peek whose bytes 10 and 11 are 0x00 0x80 (a length of 128). *)
Definition len128 : list byte :=
  [x10; x7f; x00; x04; x4d; x51; x54; x54; x04; x00; x00; x80; x61; x61;
   x61; x61; x61; x61; x61; x61; x61; x61; x61].

(** A client that closes after four bytes. *)
Definition env_short : ConnEnv :=
  {| peer := Some "10.0.0.7"; peeked := RecvBytes short_peek;
     broker := BrokerConnected; pump := [] |}.

(** One client chunk read at [t0] and written to the broker in full. *)
Definition one_chunk (data : list byte) : PumpStep :=
  {| running := true; activity := 1;
     client_ready := Some {| client_recv := RecvBytes data; clock_check := t0;
                             clock_refill := t0;
                             broker_sent := Z.of_nat (length data) |};
     broker_ready := None |}.

(** A client that sends ten bytes that are no CONNECT packet, then stops. *)
Definition env_anonymous : ConnEnv :=
  {| peer := Some "10.0.0.7"; peeked := RecvBytes not_connect;
     broker := BrokerConnected; pump := [one_chunk not_connect] |}.

Definition box0 : ThrottleBox := ThrottleBox_new RateLimitPolicy_default.

(** A worker whose broker cannot be reached. *)
Definition env_no_broker : ConnEnv :=
  {| peer := Some "10.0.0.7"; peeked := RecvBytes not_connect;
     broker := BrokerUnreachable; pump := [one_chunk not_connect] |}.

(** A pump loop that only sees data of the broker. *)
Definition broker_only : list PumpStep :=
  [ {| running := true; activity := 1; client_ready := None;
       broker_ready := Some {| broker_recv := RecvBytes not_connect; client_sent := 10 |} |} ].

(** Ten leading bytes of a CONNECT packet: fixed header, protocol name
    "MQTT", level 4, flags 2. *)
Definition connect_head : list byte :=
  [x10; x0c; x00; x04; x4d; x51; x54; x54; x04; x02].

(** A policy of 1000 messages per second with a capacity of one and no
    block, the limiter after the one message of client "c" that the capacity
    pays for, and four more calls of "c", half a millisecond apart. *)
Definition P_fast : RateLimitPolicy :=
  {| maxMessagesPerSec := 1000%float; burstSize := 1; blockDurationSec := 0 |}.

Definition after_fast : RateLimiter :=
  snd (allow t0 t0 "1.1.1.1" "c" (RateLimiter_new P_fast)).

Definition fast_times : list (Chrono.time_point * Chrono.time_point) :=
  [(t0 + 500000, t0 + 500000); (t0 + 1000000, t0 + 1000000);
   (t0 + 1500000, t0 + 1500000); (t0 + 2000000, t0 + 2000000)].

(** A policy whose rate is a NaN, and a limiter that has served one call
    under it. *)
Definition P_nan : RateLimitPolicy :=
  {| maxMessagesPerSec := PrimFloat.nan; burstSize := 3; blockDurationSec := 1 |}.

Definition after_nan : RateLimiter :=
  snd (allow t0 t0 "1.1.1.1" "c" (RateLimiter_new P_nan)).

(** A policy that blocks for two hours, and the limiter after four calls in
    a row under it: the bucket of "c" is blocked until [t0 + 7200 s]. *)
Definition P_long_block : RateLimitPolicy :=
  {| maxMessagesPerSec := 2%float; burstSize := 3; blockDurationSec := 7200 |}.

Definition after_long_block : RateLimiter :=
  snd (run_calls [at_time t0; at_time t0; at_time t0; at_time t0]
         (RateLimiter_new P_long_block)).

End Data.

(** ** All bytes, for case analysis by evaluation *)

Module Bytes.

(** The value of a byte as an unsigned number. *)
Definition val (b : byte) : Z := Z.of_N (Byte.to_N b).

Definition all : list byte :=
  map (λ n, default x00 (Byte.of_N (N.of_nat n))) (seq 0 256).

Definition for_all (P : byte → bool) : bool := forallb P all.

(** The two platforms' values of [clientIdLen] in closed form. *)
Definition check_clientIdLen (hi lo : byte) : bool :=
  (clientIdLen false hi lo =? Spec.be16 hi lo)
  && (clientIdLen true hi lo
      =? (if val lo <? 128 then Spec.be16 hi lo else 65280 + val lo)).

End Bytes.

(** ** Specification floats: sign classes and exact shift records *)

Module SF.

(** The floats [x] with [0 <= x]: both zeros, the positive numbers and
    plus infinity. *)
Definition nonneg (x : spec_float) : bool :=
  match x with
  | S754_zero _ => true
  | S754_infinity s => negb s
  | S754_finite s _ _ => negb s
  | S754_nan => false
  end.

(** The same, or a NaN. *)
Definition nn (x : spec_float) : bool :=
  match x with
  | S754_nan => true
  | _ => nonneg x
  end.

(** A shift record with no bit lost. *)
Definition exact (m : Z) : shr_record := {| shr_m := m; shr_r := false; shr_s := false |}.

(** The float [1.0]. *)
Definition one : spec_float := S754_finite false 4503599627370496 (-52).

End SF.

(** ** Reading the system calls of a worker *)

Module Sys.

Definition is_create (s : Socket) (c : SysCall) : bool :=
  match c, s with
  | SocketCreate ClientSocket, ClientSocket => true
  | SocketCreate BrokerSocket, BrokerSocket => true
  | _, _ => false
  end.

Definition is_close (s : Socket) (c : SysCall) : bool :=
  match c, s with
  | SocketClose ClientSocket, ClientSocket => true
  | SocketClose BrokerSocket, BrokerSocket => true
  | _, _ => false
  end.

Definition is_send (c : SysCall) : bool :=
  match c with
  | SocketSend _ _ => true
  | _ => false
  end.

(** How many calls of a log satisfy a test. *)
Fixpoint count_if (f : SysCall → bool) (l : list SysCall) : nat :=
  match l with
  | [] => 0
  | c :: l => (if f c then 1 else 0) + count_if f l
  end.

(** The data written to a socket, in the order of the calls. *)
Fixpoint sent_to (s : Socket) (l : list SysCall) : list (list byte) :=
  match l with
  | [] => []
  | SocketSend ClientSocket data :: l =>
      match s with
      | ClientSocket => data :: sent_to s l
      | BrokerSocket => sent_to s l
      end
  | SocketSend BrokerSocket data :: l =>
      match s with
      | BrokerSocket => data :: sent_to s l
      | ClientSocket => sent_to s l
      end
  | _ :: l => sent_to s l
  end.

(** The chunks the script of a pump loop delivers on the client socket and
    on the broker socket, in order. *)
Definition client_chunks (steps : list PumpStep) : list (list byte) :=
  omap (λ step, (λ cr, buffer (client_recv cr)) <$> client_ready step) steps.

Definition broker_chunks (steps : list PumpStep) : list (list byte) :=
  omap (λ step, (λ br, buffer (broker_recv br)) <$> broker_ready step) steps.

(** [n] times [x++] on a [uint64_t]. *)
Definition bump (n : nat) (x : Z) : Z := Nat.iter n Num.uint64_incr x.

(** The value of a named counter, 0 when it was never created. *)
Definition counter (name : string) (m : Metrics) : Z := default 0 (counters_ m !! name).

End Sys.

(** One iteration of the loop of [forwardTraffic] on its own: whether the
    loop goes on, and the state the iteration leaves ([forwardTraffic_step]
    below shows that the loop is made of these). *)
Definition pump_one (info : ClientInfo) (step : PumpStep) (st : ThrottleBox)
    : bool * ThrottleBox :=
  if negb (running step) then (false, st)
  else if activity step <=? 0 then (true, st)
  else
    match client_ready step with
    | None =>
        match pumpBroker (broker_ready step) st with
        | Some st' => (true, st')
        | None => (false, st)
        end
    | Some cr =>
        if bytesRead (client_recv cr) <=? 0 then (false, st)
        else
          let r := allow (clock_check cr) (clock_refill cr) (ip info) (clientId info)
                     (rateLimiter_ st) in
          let st1 := {| rateLimiter_ := snd r; metrics_ := metrics_ st;
                        syscalls := syscalls st |} in
          if negb (fst r) then (true, count "blocked_messages" st1)
          else
            let st2 := sys (SocketSend BrokerSocket (buffer (client_recv cr)))
                         (count "allowed_messages" st1) in
            if broker_sent cr =? bytesRead (client_recv cr) then
              match pumpBroker (broker_ready step) st2 with
              | Some st' => (true, st')
              | None => (false, st2)
              end
            else (false, st2)
    end.

(** ** The configuration ([config.hpp], [config.cpp]) *)

Module Cfg.

Record ProxySettings := mkProxySettings {
  listenAddress : string;
  listenPort : Z;
  brokerHost : string;
  brokerPort : Z
}.

Record Config := mkConfig {
  globalPolicy_ : RateLimitPolicy;
  clientPolicies_ : gmap string RateLimitPolicy;
  proxySettings_ : ProxySettings;
  valid_ : bool;
  lastError_ : string
}.

(** [Config() = default]: the member initialisers. *)
Definition Config_default : Config :=
  {| globalPolicy_ := RateLimitPolicy_default;
     clientPolicies_ := ∅;
     proxySettings_ := {| listenAddress := "0.0.0.0"; listenPort := 1883;
                          brokerHost := "localhost"; brokerPort := 1884 |};
     valid_ := false;
     lastError_ := "" |}.

Definition set_error (msg : string) (c : Config) : Config :=
  {| globalPolicy_ := globalPolicy_ c; clientPolicies_ := clientPolicies_ c;
     proxySettings_ := proxySettings_ c; valid_ := valid_ c; lastError_ := msg |}.

(** [Config::validateConfig]: the first failing check sets [lastError_]. *)
Definition validateConfig (c : Config) : bool * Config :=
  if PrimFloat.leb (maxMessagesPerSec (globalPolicy_ c)) 0%float then
    (false, set_error "max_messages_per_sec must be positive" c)
  else if burstSize (globalPolicy_ c) <=? 0 then
    (false, set_error "burst_size must be positive" c)
  else if blockDurationSec (globalPolicy_ c) <? 0 then
    (false, set_error "block_duration_sec cannot be negative" c)
  else if (listenPort (proxySettings_ c) <=? 0) || (65535 <? listenPort (proxySettings_ c)) then
    (false, set_error "listen_port must be between 1 and 65535" c)
  else if (brokerPort (proxySettings_ c) <=? 0) || (65535 <? brokerPort (proxySettings_ c)) then
    (false, set_error "broker_port must be between 1 and 65535" c)
  else if String.eqb (brokerHost (proxySettings_ c)) "" then
    (false, set_error "broker_host cannot be empty" c)
  else (true, c).

(** [Config::getClientPolicy]. *)
Definition getClientPolicy (clientId : string) (c : Config) : RateLimitPolicy :=
  match clientPolicies_ c !! clientId with
  | Some p => p
  | None => globalPolicy_ c
  end.

End Cfg.

(** ** Building peeked buffers *)

Module Packet.

(** A peek made of ten leading bytes, a two-byte length field at offset 10,
    the bytes of an identifier from offset 12 and the bytes that follow. *)
Definition layout (head : list byte) (hi lo : byte) (id rest : list byte) : list byte :=
  head ++ hi :: lo :: id ++ rest.

(** The byte with a given value below 256. *)
Definition byte_of (n : Z) : byte := default x00 (Byte.of_N (Z.to_N n)).

End Packet.

(** * Facts of binary64 arithmetic used by the token bounds *)

Section FloatFacts.


(** [2^(d-1) <= p < 2^d] for [d] the number of binary digits of [p]. *)
Lemma digits2_pos_bounds (p : positive) :
  2 ^ (Zpos (digits2_pos p) - 1) <= Zpos p < 2 ^ Zpos (digits2_pos p).
Proof.
  induction p as [p IH|p IH|]; cbn [digits2_pos].
  - rewrite Pos2Z.inj_succ.
    replace (Z.succ (Zpos (digits2_pos p)) - 1) with (Z.succ (Zpos (digits2_pos p) - 1)) by lia.
    rewrite !Z.pow_succ_r by lia. lia.
  - rewrite Pos2Z.inj_succ.
    replace (Z.succ (Zpos (digits2_pos p)) - 1) with (Z.succ (Zpos (digits2_pos p) - 1)) by lia.
    rewrite !Z.pow_succ_r by lia. lia.
  - cbn. lia.
Qed.

Lemma digits2_pos_unique (p : positive) (d : Z) :
  2 ^ (d - 1) <= Zpos p < 2 ^ d -> Zpos (digits2_pos p) = d.
Proof.
  intros [Hlo Hhi]. pose proof (digits2_pos_bounds p) as [Blo Bhi].
  assert (0 < d).
  { destruct (Z.ltb_spec 0 d); [done|].
    assert (2 ^ d <= 2 ^ 0) by (destruct (Z.eq_dec d 0); [subst; lia|rewrite Z.pow_neg_r; lia]).
    cbn in *. lia. }
  destruct (Z.lt_trichotomy (Zpos (digits2_pos p)) d) as [Hl|[He|Hg]]; [|done|].
  - assert (2 ^ Zpos (digits2_pos p) <= 2 ^ (d - 1)) by (apply Z.pow_le_mono_r; lia). lia.
  - assert (2 ^ d <= 2 ^ (Zpos (digits2_pos p) - 1)) by (apply Z.pow_le_mono_r; lia). lia.
Qed.

Lemma digits2_pos_shift (q n : positive) (j : Z) :
  0 <= j -> Zpos n = Zpos q * 2 ^ j ->
  Zpos (digits2_pos n) = Zpos (digits2_pos q) + j.
Proof.
  intros Hj Hn. apply digits2_pos_unique. rewrite Hn.
  pose proof (digits2_pos_bounds q) as [Hlo Hhi].
  assert (Hpos : 0 < 2 ^ j) by (apply Z.pow_pos_nonneg; lia).
  replace (Zpos (digits2_pos q) + j - 1) with ((Zpos (digits2_pos q) - 1) + j) by lia.
  rewrite !Z.pow_add_r by lia. split.
  - apply Z.mul_le_mono_nonneg_r; lia.
  - apply Z.mul_lt_mono_pos_r; lia.
Qed.

Lemma iter_xO_val (p d : positive) : Zpos (Pos.iter xO p d) = Zpos p * 2 ^ Zpos d.
Proof.
  revert p. induction d as [|d IH] using Pos.peano_ind; intros p.
  - cbn. lia.
  - rewrite Pos.iter_succ. rewrite Pos2Z.inj_succ, Z.pow_succ_r by lia.
    rewrite Pos2Z.inj_xO, IH. lia.
Qed.

Lemma SFleb_zero (x : spec_float) : SFleb (S754_zero false) x = SF.nonneg x.
Proof. destruct x as [s|s| |s m e]; try destruct s; reflexivity. Qed.

Lemma SFnn_nonneg (x : spec_float) : SF.nn x = true -> x <> S754_nan -> SF.nonneg x = true.
Proof. destruct x; cbn; congruence. Qed.

Lemma binary_round_aux_nn m e l : SF.nn (binary_round_aux prec emax false m e l) = true.
Proof.
  unfold binary_round_aux.
  destruct (shr_fexp _ _ m e l) as [mrs' e'].
  destruct (shr_fexp _ _ _ e' loc_Exact) as [mrs'' e''].
  destruct (shr_m mrs''); [reflexivity| |reflexivity].
  destruct (e'' <=? _); reflexivity.
Qed.

Lemma binary_round_nn p e : SF.nn (binary_round prec emax false p e) = true.
Proof.
  unfold binary_round. destruct (shl_align _ _ _) as [mz ez]. apply binary_round_aux_nn.
Qed.

Lemma binary_normalize_nn m e : 0 <= m -> SF.nn (binary_normalize prec emax m e false) = true.
Proof.
  intros H. destruct m as [|p|p]; cbn [binary_normalize]; [reflexivity| |lia].
  apply binary_round_nn.
Qed.

Lemma SFadd_nn x y : SF.nn x = true -> SF.nn y = true -> SF.nn (SF64add x y) = true.
Proof.
  destruct x as [sx|sx| |sx mx ex], y as [sy|sy| |sy my ey];
    try destruct sx; try destruct sy; cbn; try congruence; intros _ _.
  apply binary_normalize_nn. lia.
Qed.

Lemma SFmul_nn x y : SF.nn x = true -> SF.nn y = true -> SF.nn (SF64mul x y) = true.
Proof.
  destruct x as [sx|sx| |sx mx ex], y as [sy|sy| |sy my ey];
    try destruct sx; try destruct sy; cbn; try congruence; intros _ _.
  apply binary_round_aux_nn.
Qed.

(** Division by a positive finite number. *)
Lemma SFdiv_nn x my ey :
  SF.nn x = true -> SF.nn (SF64div x (S754_finite false my ey)) = true.
Proof.
  destruct x as [sx|sx| |sx mx ex]; try destruct sx; cbn; try congruence; intros _.
  destruct (SFdiv_core_binary _ _ _ _ _ _) as [[mz ez] lz]. apply binary_round_aux_nn.
Qed.

(** Shifting out zero bits is exact. *)
Lemma iter_shr_1_exact (k n : positive) :
  SpecFloat.iter_pos shr_1 k (SF.exact (Zpos (Pos.iter xO n k))) = SF.exact (Zpos n).
Proof.
  revert n. induction k as [k IH|k IH|]; intros n; cbn [SpecFloat.iter_pos Pos.iter].
  - change (shr_1 (SF.exact (Zpos (Pos.iter xO (Pos.iter xO n k) k)~0)))
      with (SF.exact (Zpos (Pos.iter xO (Pos.iter xO n k) k))).
    by rewrite !IH.
  - by rewrite !IH.
  - reflexivity.
Qed.

Lemma fexp_normal (x : Z) : -1021 <= x -> fexp prec emax x = x - 53.
Proof. intros H. unfold fexp, SpecFloat.emin, prec, emax. lia. Qed.

(** A 53-digit mantissa at an exponent of the normal range is not shifted. *)
Lemma shr_fexp_normal (n : positive) (e : Z) :
  Zpos (digits2_pos n) = 53 -> -1074 <= e ->
  shr_fexp prec emax (Zpos n) e loc_Exact = (SF.exact (Zpos n), e).
Proof.
  intros Hd He. unfold shr_fexp. cbn [Zdigits2 shr_record_of_loc].
  rewrite Hd, fexp_normal by lia.
  replace (53 + e - 53 - e) with 0 by lia. reflexivity.
Qed.

(** A longer mantissa whose low bits are zero is shifted exactly. *)
Lemma shr_fexp_shift (n sh : positive) (e : Z) :
  Zpos (digits2_pos n) = 53 -> -1074 <= e + Zpos sh ->
  shr_fexp prec emax (Zpos (Pos.iter xO n sh)) e loc_Exact
  = (SF.exact (Zpos n), e + Zpos sh).
Proof.
  intros Hd He. unfold shr_fexp. cbn [Zdigits2 shr_record_of_loc].
  assert (Hdp : Zpos (digits2_pos (Pos.iter xO n sh)) = 53 + Zpos sh).
  { rewrite <- Hd. apply digits2_pos_shift; [lia|]. apply iter_xO_val. }
  rewrite Hdp, fexp_normal by lia.
  replace (53 + Zpos sh + e - 53 - e) with (Zpos sh) by lia.
  cbn [shr]. fold (SF.exact (Zpos (Pos.iter xO n sh))). by rewrite iter_shr_1_exact.
Qed.

Lemma binary_round_aux_exact (m : Z) (n : positive) (e e1 : Z) :
  shr_fexp prec emax m e loc_Exact = (SF.exact (Zpos n), e1) ->
  Zpos (digits2_pos n) = 53 -> -1074 <= e1 <= 971 ->
  binary_round_aux prec emax false m e loc_Exact = S754_finite false n e1.
Proof.
  intros Hs Hd He. unfold binary_round_aux. rewrite Hs.
  cbn [SF.exact shr_m loc_of_shr_record round_nearest_even].
  rewrite shr_fexp_normal by (done || lia). cbn [SF.exact shr_m].
  destruct (Z.leb_spec e1 (emax - prec)); [done|]. unfold emax, prec in *. lia.
Qed.

(** Rounding a number [q * 2^k] whose odd part [q] fits the mantissa is
    exact: the result is [q], normalised to 53 digits. *)
Lemma binary_round_exact (p q : positive) (k e : Z) :
  0 <= k -> Zpos p = Zpos q * 2 ^ k ->
  Zpos (digits2_pos q) <= 53 ->
  -1074 <= e + k + Zpos (digits2_pos q) - 53 <= 971 ->
  binary_round prec emax false p e
  = S754_finite false (Z.to_pos (Zpos q * 2 ^ (53 - Zpos (digits2_pos q))))
                (e + k + Zpos (digits2_pos q) - 53).
Proof.
  set (dq := Zpos (digits2_pos q)). intros Hk Hp Hdq He.
  set (n := Z.to_pos (Zpos q * 2 ^ (53 - dq))).
  assert (Hn : Zpos n = Zpos q * 2 ^ (53 - dq)).
  { unfold n. rewrite Z2Pos.id; [done|]. apply Z.mul_pos_pos; [lia|].
    apply Z.pow_pos_nonneg; lia. }
  pose proof (digits2_pos_bounds q) as [Hqlo Hqhi]. fold dq in Hqlo, Hqhi.
  assert (Hdn : Zpos (digits2_pos n) = 53).
  { rewrite (digits2_pos_shift q n (53 - dq)); [fold dq; lia | lia | done]. }
  assert (Hdp : Zpos (digits2_pos p) = dq + k).
  { by apply digits2_pos_shift. }
  unfold binary_round. rewrite Hdp, fexp_normal by lia.
  unfold shl_align.
  replace (dq + k + e - 53 - e) with (dq + k - 53) by lia.
  destruct (dq + k - 53) as [|sh|sh] eqn:Esh.
  - (* 53 digits already *)
    assert (p = n) as ->.
    { apply Pos2Z.inj. rewrite Hp, Hn. f_equal. f_equal. lia. }
    replace (e + k + dq - 53) with e by lia.
    apply binary_round_aux_exact; [|done|lia].
    by rewrite shr_fexp_normal by (done || lia).
  - (* more than 53 digits: the low bits are zero *)
    assert (p = Pos.iter xO n sh) as ->.
    { apply Pos2Z.inj. rewrite iter_xO_val, Hp, Hn.
      rewrite <- Z.mul_assoc, <- Z.pow_add_r by lia. f_equal. f_equal. lia. }
    replace (e + k + dq - 53) with (e + Zpos sh) by lia.
    apply binary_round_aux_exact; [|done|lia].
    by rewrite shr_fexp_shift by (done || lia).
  - (* fewer than 53 digits: aligned to the left *)
    assert (Pos.iter xO p sh = n) as ->.
    { apply Pos2Z.inj. rewrite iter_xO_val, Hp, Hn.
      rewrite <- Z.mul_assoc, <- Z.pow_add_r by lia. f_equal. f_equal. lia. }
    replace (e + k + dq - 53) with (dq + k + e - 53) by lia.
    apply binary_round_aux_exact; [|done|lia].
    by rewrite shr_fexp_normal by (done || lia).
Qed.

Lemma shl_align_val (mx : positive) (ex ex' : Z) :
  ex' <= ex -> Zpos (fst (shl_align mx ex ex')) = Zpos mx * 2 ^ (ex - ex').
Proof.
  intros H. unfold shl_align. destruct (ex' - ex) as [|d|d] eqn:E; cbn [fst].
  - replace (ex - ex') with 0 by lia. lia.
  - lia.
  - rewrite iter_xO_val. do 2 f_equal. lia.
Qed.

Lemma SFleb_finite (m1 m2 : positive) (e1 e2 : Z) :
  SFleb (S754_finite false m1 e1) (S754_finite false m2 e2) = true
  <-> e1 < e2 \/ (e1 = e2 /\ Zpos m1 <= Zpos m2).
Proof.
  unfold SFleb, SFcompare. fold (Pos.compare m1 m2).
  destruct (Z.compare_spec e1 e2) as [He|He|He].
  - destruct (Pos.compare_spec m1 m2) as [Hm|Hm|Hm]; split; intros H; try done; lia.
  - split; [by left|done].
  - split; [done|lia].
Qed.

(** The value of a non-negative integer below [2^53] as a float: exact. *)
Lemma binary_normalize_small (z : Z) :
  0 <= z < 2 ^ 53 ->
  binary_normalize prec emax z 0 false = S754_zero false
  \/ exists m e, binary_normalize prec emax z 0 false = S754_finite false m e /\ e <= 0.
Proof.
  intros [Hlo Hhi]. destruct z as [|p|p]; [by left| |lia]. right.
  cbn [binary_normalize].
  pose proof (digits2_pos_bounds p) as [Blo Bhi].
  assert (Hd : Zpos (digits2_pos p) <= 53).
  { destruct (Z.le_gt_cases (Zpos (digits2_pos p)) 53); [done|].
    assert (2 ^ 53 <= 2 ^ (Zpos (digits2_pos p) - 1)) by (apply Z.pow_le_mono_r; lia). lia. }
  eexists _, _. split.
  - apply (binary_round_exact p p 0 0); [lia|lia|done|lia].
  - lia.
Qed.

(** [t - 1] for a float [1 <= t <= B] with [B] below [2^53]: the
    subtraction is exact, and the difference is non-negative and at most
    [B]. *)
Lemma SFsub_one (mx mB : positive) (ex eB : Z) :
  SpecFloat.valid_binary prec emax (S754_finite false mx ex) = true ->
  SFleb SF.one (S754_finite false mx ex) = true ->
  SFleb (S754_finite false mx ex) (S754_finite false mB eB) = true ->
  eB <= 0 ->
  SF.nonneg (SF64sub (S754_finite false mx ex) SF.one) = true
  /\ SFleb (SF64sub (S754_finite false mx ex) SF.one) (S754_finite false mB eB) = true.
Proof.
  intros Hvalid H1 HB HeB. unfold SF.one in *.
  apply SFleb_finite in H1, HB.
  assert (Hex : -52 <= ex <= 0) by lia.
  (* the mantissa has 53 digits *)
  assert (Hd : Zpos (digits2_pos mx) = 53).
  { cbn [SpecFloat.valid_binary] in Hvalid. unfold bounded in Hvalid.
    apply andb_prop in Hvalid as [Hc _]. unfold canonical_mantissa in Hc.
    apply Z.eqb_eq in Hc. unfold fexp, SpecFloat.emin, prec, emax in Hc. lia. }
  pose proof (digits2_pos_bounds mx) as [Hlo Hhi]. rewrite Hd in Hlo, Hhi.
  change (2 ^ (53 - 1)) with 4503599627370496 in Hlo.
  set (dd := ex + 52).
  assert (Hpow : 2 ^ 52 = 2 ^ (52 - dd) * 2 ^ dd).
  { rewrite <- Z.pow_add_r by lia. f_equal. lia. }
  assert (Hpd : 0 < 2 ^ dd) by (apply Z.pow_pos_nonneg; lia).
  assert (Hpq : 0 < 2 ^ (52 - dd) <= 2 ^ 52).
  { split; [apply Z.pow_pos_nonneg; lia | apply Z.pow_le_mono_r; lia]. }
  change (2 ^ 52) with 4503599627370496 in Hpq.
  unfold SF64sub, SFsub. cbn [cond_Zopp].
  replace (Z.min ex (-52)) with (-52) by lia.
  rewrite (shl_align_val mx ex (-52)) by lia.
  rewrite (shl_align_val 4503599627370496 (-52) (-52)) by lia.
  replace (ex - -52) with dd by lia. replace (-52 - -52) with 0 by lia.
  replace (Zpos mx * 2 ^ dd - 4503599627370496 * 2 ^ 0)
    with ((Zpos mx - 2 ^ (52 - dd)) * 2 ^ dd)
    by (change 4503599627370496 with (2 ^ 52); rewrite Hpow; ring).
  destruct (Zpos mx - 2 ^ (52 - dd)) as [|q|q] eqn:Eq; [| |lia].
  - cbn. done.
  - assert (Hp : 0 < Zpos q * 2 ^ dd) by lia.
    destruct (Zpos q * 2 ^ dd) as [|p|p] eqn:Ep; [lia| |lia].
    cbn [binary_normalize].
    pose proof (digits2_pos_bounds q) as [Qlo Qhi].
    assert (Hdq : Zpos (digits2_pos q) <= 53).
    { destruct (Z.le_gt_cases (Zpos (digits2_pos q)) 53); [done|].
      assert (2 ^ 53 <= 2 ^ (Zpos (digits2_pos q) - 1)) by (apply Z.pow_le_mono_r; lia).
      lia. }
    rewrite (binary_round_exact p q dd (-52)) by (done || lia).
    split; [done|]. apply SFleb_finite.
    destruct (Z.eq_dec (Zpos (digits2_pos q)) 53) as [E53|N53].
    + rewrite E53. replace (53 - 53) with 0 by lia. rewrite Z.mul_1_r.
      rewrite Pos2Z.id. lia.
    + left. lia.
Qed.

Lemma Prim2SF_one : Prim2SF 1 = SF.one.
Proof. reflexivity. Qed.

Lemma Prim2SF_zero : Prim2SF 0 = S754_zero false.
Proof. reflexivity. Qed.

Lemma Prim2SF_1000 : Prim2SF 1000 = S754_finite false 8796093022208000 (-43).
Proof. reflexivity. Qed.

Lemma leb_zero (x : float) : PrimFloat.leb 0 x = SF.nonneg (Prim2SF x).
Proof. by rewrite FloatAxioms.leb_spec, Prim2SF_zero, SFleb_zero. Qed.

Lemma double_of_Z_spec (z : Z) :
  0 <= z < 2 ^ 63 ->
  Prim2SF (Num.double_of_Z z) = binary_normalize prec emax z 0 false.
Proof.
  intros [Hlo Hhi]. unfold Num.double_of_Z.
  destruct (Z.ltb_spec z 0); [lia|].
  rewrite FloatAxioms.of_uint63_spec, Uint63.of_Z_spec. f_equal.
  apply Z.mod_small. change wB with (2 ^ 63). lia.
Qed.

Lemma double_of_Z_nn (z : Z) : 0 <= z -> SF.nn (Prim2SF (Num.double_of_Z z)) = true.
Proof.
  intros Hz. unfold Num.double_of_Z. destruct (Z.ltb_spec z 0); [lia|].
  rewrite FloatAxioms.of_uint63_spec. apply binary_normalize_nn.
  pose proof (Uint63.to_Z_bounded (Uint63.of_Z z)). lia.
Qed.

Lemma SFltb_leb (x y : spec_float) : SFltb x y = true -> SFleb x y = true /\ x <> S754_nan.
Proof.
  unfold SFltb, SFleb.
  destruct (SFcompare x y) as [[| |]|] eqn:E; try done.
  intros _. split; [done|]. intros ->. done.
Qed.

(** The capacity as a float: not a NaN, and not negative. *)
Lemma burst_bounds (burst : Z) :
  0 <= burst < 2 ^ 53 ->
  PrimFloat.leb 0 (Num.double_of_Z burst) = true
  /\ PrimFloat.leb (Num.double_of_Z burst) (Num.double_of_Z burst) = true.
Proof.
  intros Hb. rewrite leb_zero, FloatAxioms.leb_spec, double_of_Z_spec by lia.
  destruct (binary_normalize_small burst Hb) as [-> | (m & e & -> & _)]; [done|].
  split; [done|]. apply SFleb_finite. lia.
Qed.

(** The tokens after a refill that is not the first. *)
Lemma refill_bounds (t rate : float) (ms burst : Z) :
  PrimFloat.leb 0 t = true -> PrimFloat.leb 0 rate = true ->
  0 <= ms -> 0 <= burst < 2 ^ 53 ->
  let t' := Num.std_min (Num.double_of_Z burst)
              (PrimFloat.add t (PrimFloat.mul (PrimFloat.div (Num.double_of_Z ms) 1000) rate)) in
  PrimFloat.leb 0 t' = true /\ PrimFloat.leb t' (Num.double_of_Z burst) = true.
Proof.
  intros Ht Hr Hms Hb. cbv zeta. unfold Num.std_min.
  destruct (PrimFloat.ltb _ _) eqn:E; [|by apply burst_bounds].
  rewrite FloatAxioms.ltb_spec in E. apply SFltb_leb in E as [Hle Hnan].
  rewrite leb_zero, FloatAxioms.leb_spec. split; [|done].
  apply SFnn_nonneg; [|done].
  rewrite leb_zero in Ht, Hr.
  rewrite FloatAxioms.add_spec. apply SFadd_nn; [by destruct (Prim2SF t)|].
  rewrite FloatAxioms.mul_spec. apply SFmul_nn; [|by destruct (Prim2SF rate)].
  rewrite FloatAxioms.div_spec, Prim2SF_1000. apply SFdiv_nn. by apply double_of_Z_nn.
Qed.

(** The tokens after one is consumed. *)
Lemma consume_bounds (t : float) (burst : Z) :
  0 <= burst < 2 ^ 53 ->
  PrimFloat.leb 1 t = true -> PrimFloat.leb t (Num.double_of_Z burst) = true ->
  PrimFloat.leb 0 (PrimFloat.sub t 1) = true
  /\ PrimFloat.leb (PrimFloat.sub t 1) (Num.double_of_Z burst) = true.
Proof.
  intros Hb H1 HB. rewrite leb_zero. rewrite !FloatAxioms.leb_spec in *.
  rewrite FloatAxioms.sub_spec. rewrite double_of_Z_spec in * by lia.
  rewrite Prim2SF_one in *.
  pose proof (FloatAxioms.Prim2SF_valid t) as Hv.
  destruct (Prim2SF t) as [s|s| |s mx ex]; try done.
  - destruct s; [done|].
    destruct (binary_normalize_small burst Hb) as [E | (m & e & E & _)];
      rewrite E in HB; done.
  - destruct s; [done|].
    destruct (binary_normalize_small burst Hb) as [E | (m & e & E & He)];
      rewrite E in HB |- *; [done|].
    by apply SFsub_one.
Qed.

End FloatFacts.

(** * Properties of the rate limiter *)

Section RateLimiterFacts.

Implicit Types (s : RateLimiter) (P policy : RateLimitPolicy) (B bucket : TokenBucket).
Implicit Types (now nowRefill : Chrono.time_point) (ip clientId key : string).

(** *** Refill *)

Lemma refillBucket_spec now P B : refillBucket now P B = Spec.refill now P B.
Proof.
  unfold refillBucket, Spec.refill, Spec.unset, Spec.elapsed_seconds.
  destruct (Z.eqb_spec (lastRefill B) Chrono.epoch) as [E|E];
    destruct (decide (lastRefill B = Chrono.epoch)); try contradiction; reflexivity.
Qed.

Lemma refillBucket_lastRefill now P B : lastRefill (refillBucket now P B) = now.
Proof. unfold refillBucket. destruct (_ =? _); reflexivity. Qed.

Lemma refillBucket_blockedUntil now P B :
  blockedUntil (refillBucket now P B) = blockedUntil B.
Proof. unfold refillBucket. destruct (_ =? _); reflexivity. Qed.

Lemma refillBucket_isBlocked now P B :
  isBlocked (refillBucket now P B) = isBlocked B.
Proof. unfold refillBucket. destruct (_ =? _); reflexivity. Qed.

(** *** The decision on one bucket *)

Lemma checkBucket_spec now nowRefill P B :
  checkBucket now nowRefill P B =
  let r := Spec.decide_at now nowRefill P B in (Spec.is_allow (fst r), snd r).
Proof.
  unfold checkBucket, Spec.decide_at, Spec.block_check, Spec.consume, Num.geb.
  rewrite <- refillBucket_spec.
  set (B1 := refillBucket nowRefill P B).
  destruct (isBlocked B1) eqn:Eb; cbn [andb].
  - destruct (Z.ltb_spec now (blockedUntil B1)) as [Hlt|Hge];
      destruct (decide (now < blockedUntil B1)) as [Hd|Hd]; try lia; cbn.
    + reflexivity.
    + destruct (Z.leb_spec (blockedUntil B1) now); [|lia]. cbn.
      destruct (PrimFloat.leb 1 (tokens B1)); cbn; [reflexivity|].
      destruct (Z.ltb_spec 0 (blockDurationSec P));
        destruct (decide (0 < blockDurationSec P)); try lia; reflexivity.
  - cbn. rewrite Eb.
    destruct (PrimFloat.leb 1 (tokens B1)); cbn; [reflexivity|].
    destruct (Z.ltb_spec 0 (blockDurationSec P));
      destruct (decide (0 < blockDurationSec P)); try lia; reflexivity.
Qed.

(** A call on a bucket inside its block window: denied, and only the refill
    has touched the bucket. *)
Lemma checkBucket_blocked now nowRefill P B :
  isBlocked B = true → now < blockedUntil B →
  checkBucket now nowRefill P B = (false, refillBucket nowRefill P B).
Proof.
  intros Hb Hlt. unfold checkBucket.
  rewrite refillBucket_isBlocked, refillBucket_blockedUntil, Hb.
  destruct (Z.ltb_spec now (blockedUntil B)); [reflexivity|lia].
Qed.

(** *** From the bucket to the table *)

Lemma allow_unfold now nowRefill ip clientId s :
  let key := bucket_key ip clientId in
  let r := checkBucket now nowRefill (effective_policy s clientId)
             (default TokenBucket_default (buckets_ s !! key)) in
  allow now nowRefill ip clientId s =
  (fst r,
   {| defaultPolicy_ := defaultPolicy_ s; clientPolicies_ := clientPolicies_ s;
      buckets_ := <[key := snd r]> (buckets_ s);
      allowedMessages_ :=
        if fst r then Num.uint64_incr (allowedMessages_ s) else allowedMessages_ s;
      blockedMessages_ :=
        if fst r then blockedMessages_ s else Num.uint64_incr (blockedMessages_ s) |}).
Proof. reflexivity. Qed.

Lemma allow_buckets_key now nowRefill ip clientId s :
  buckets_ (snd (allow now nowRefill ip clientId s)) !! bucket_key ip clientId =
  Some (snd (checkBucket now nowRefill (effective_policy s clientId)
               (default TokenBucket_default (buckets_ s !! bucket_key ip clientId)))).
Proof. rewrite allow_unfold. cbn. apply lookup_insert_eq. Qed.

(** Independence: a call leaves the bucket of every other key alone. *)
Lemma allow_buckets_other now nowRefill ip clientId s key :
  key ≠ bucket_key ip clientId →
  buckets_ (snd (allow now nowRefill ip clientId s)) !! key = buckets_ s !! key.
Proof. intros Hne. rewrite allow_unfold. cbn. by apply lookup_insert_ne. Qed.

Lemma allow_policies now nowRefill ip clientId s :
  clientPolicies_ (snd (allow now nowRefill ip clientId s)) = clientPolicies_ s
  ∧ defaultPolicy_ (snd (allow now nowRefill ip clientId s)) = defaultPolicy_ s.
Proof. rewrite allow_unfold. cbn. done. Qed.

Lemma uint64_incr_small x : 0 ≤ x < Num.UINT64_MAX → Num.uint64_incr x = x + 1.
Proof.
  unfold Num.uint64_incr, Num.UINT64_MAX, Num.UINT64_MOD. intros H.
  apply Z.mod_small. lia.
Qed.

(** The counters wrap as [uint64_t]: whatever their values, a call moves
    exactly one of them, by [++]. *)
Lemma allow_counters_wrap now nowRefill ip clientId s :
  let r := allow now nowRefill ip clientId s in
  (fst r = true
   ∧ allowedMessages_ (snd r) = Num.uint64_incr (allowedMessages_ s)
   ∧ blockedMessages_ (snd r) = blockedMessages_ s)
  ∨ (fst r = false
     ∧ blockedMessages_ (snd r) = Num.uint64_incr (blockedMessages_ s)
     ∧ allowedMessages_ (snd r) = allowedMessages_ s).
Proof.
  cbv zeta. rewrite allow_unfold. cbn.
  destruct (fst (checkBucket _ _ _ _)); [left|right]; done.
Qed.

(** Counting from a fresh limiter: the two counters add up to the number of
calls made, so they stay below their maximum for any run of fewer than
[2^64 - 1] calls. *)
Lemma run_calls_counters (calls : list AllowCall) s (n : Z) :
  0 ≤ allowedMessages_ s → 0 ≤ blockedMessages_ s →
  allowedMessages_ s + blockedMessages_ s = n →
  n + Z.of_nat (length calls) ≤ Num.UINT64_MAX →
  let s' := snd (run_calls calls s) in
  0 ≤ allowedMessages_ s' ∧ 0 ≤ blockedMessages_ s'
  ∧ allowedMessages_ s' + blockedMessages_ s' = n + Z.of_nat (length calls).
Proof.
  revert s n. induction calls as [|c calls IH]; intros s n Ha Hb Hn Hmax;
    cbv zeta; cbn [run_calls snd].
  - cbn [length]. lia.
  - assert (Hl : Z.of_nat (length (c :: calls)) = 1 + Z.of_nat (length calls))
      by (cbn [length]; lia).
    rewrite Hl in Hmax |- *. rewrite Z.add_assoc.
    unfold allow_call.
    pose proof (allow_counters_wrap (call_now c) (call_nowRefill c) (call_ip c)
                  (call_clientId c) s) as Hc. cbv zeta in Hc.
    destruct Hc as [(_ & E1 & E2) | (_ & E1 & E2)];
      rewrite uint64_incr_small in E1 by lia; apply IH; lia.
Qed.

Lemma fresh_limiter_counters (calls : list AllowCall) (P : RateLimitPolicy) :
  Z.of_nat (length calls) < Num.UINT64_MAX →
  let s' := snd (run_calls calls (RateLimiter_new P)) in
  0 ≤ allowedMessages_ s' < Num.UINT64_MAX
  ∧ 0 ≤ blockedMessages_ s' < Num.UINT64_MAX.
Proof.
  intros Hlen.
  destruct (run_calls_counters calls (RateLimiter_new P) 0) as (Ha & Hb & Hsum);
    cbn; try lia.
Qed.

(** The end-to-end scenarios 1 to 4 of the specification
    ([testBasicRateLimiting] is their first four calls). *)
Example scenarios_1_to_4 :
  let r := run_calls Data.scenario_calls (RateLimiter_new Data.P_scenario) in
  fst r = [true; true; true; false; false; true]
  ∧ allowedMessages_ (snd r) = 4 ∧ blockedMessages_ (snd r) = 2.
Proof. vm_compute. done. Qed.

(** [testTokenRefill]: after the burst of 2 the third call is dropped
    without a block, and 200 ms later two tokens are back. *)
Example token_refill_test :
  let r := run_calls Data.refill_test_calls (RateLimiter_new Data.P_no_block) in
  fst r = [true; true; false; true]
  ∧ buckets_ (snd r) !! "c"
    = Some {| tokens := 1%float; lastRefill := Data.t0 + 200 * Chrono.NS_PER_MS;
              blockedUntil := 0; isBlocked := false |}.
Proof. vm_compute. done. Qed.

(** A later cleanup subsumes an earlier one. *)
Lemma cleanupExpired_later now now' s :
  now ≤ now' → cleanupExpired now' (cleanupExpired now s) = cleanupExpired now' s.
Proof.
  intros Hle. unfold cleanupExpired, set_buckets. cbn. f_equal.
  apply map_eq. intros key. apply option_eq. intros B.
  rewrite !map_lookup_filter_Some. cbn. unfold expired.
  destruct (Z.ltb_spec (Chrono.hours 1) (now - lastRefill B));
    destruct (Z.ltb_spec (Chrono.hours 1) (now' - lastRefill B)); try tauto.
  lia.
Qed.

End RateLimiterFacts.

(** * The claims about the rate limiter *)

(** C2. A call to [allow] refills first (an unset [lastRefill] gives
    [tokens = burstSize] and [lastRefill = now]; otherwise
    [tokens = min(burstSize, tokens + elapsed_seconds * maxMessagesPerSec)] and
    [lastRefill = now]), then checks the block (deny when blocked and
    [now < blockedUntil]; unblock when [now >= blockedUntil], and go on), then
    consumes (with [tokens >= 1]: one token less, allow; else deny, and
    blocked until [now + blockDurationSec] exactly when [blockDurationSec > 0]):
    the decision and the new bucket are those of [Spec.decide_at] on the
    bucket of the key under the effective policy.  The code reads the clock
    twice, in [checkAndUpdateBucket] ([now]) and in [refillBucket]
    ([nowRefill]); the call "at time now" of the claim is [nowRefill = now]. *)
Theorem C2_allow_refill_block_consume
    (now nowRefill : Chrono.time_point) (ip clientId : string) (s : RateLimiter) :
  let key := bucket_key ip clientId in
  let P := effective_policy s clientId in
  let B := default TokenBucket_default (buckets_ s !! key) in
  let after := allow now nowRefill ip clientId s in
  fst after = Spec.is_allow (fst (Spec.decide_at now nowRefill P B))
  ∧ buckets_ (snd after) !! key = Some (snd (Spec.decide_at now nowRefill P B))
  ∧ fst (allow now now ip clientId s) = Spec.is_allow (fst (Spec.decide_at now now P B))
  ∧ buckets_ (snd (allow now now ip clientId s)) !! key
    = Some (snd (Spec.decide_at now now P B)).
Proof.
  cbv zeta. rewrite !allow_unfold. cbn [fst snd buckets_].
  rewrite !lookup_insert_eq, !checkBucket_spec. cbn. done.
Qed.

(** C4. Every call to [allow] increases exactly one of the two cumulative
    counters by 1, [allowedMessages_] when it allows and [blockedMessages_]
    when it denies, and leaves the other unchanged (the counters are
    [uint64_t]: below their maximum, where [++] does not wrap). *)
Theorem C4_allow_counts_once
    (now nowRefill : Chrono.time_point) (ip clientId : string) (s : RateLimiter) :
  0 ≤ allowedMessages_ s < Num.UINT64_MAX →
  0 ≤ blockedMessages_ s < Num.UINT64_MAX →
  let after := allow now nowRefill ip clientId s in
  (fst after = true
   ∧ allowedMessages_ (snd after) = allowedMessages_ s + 1
   ∧ blockedMessages_ (snd after) = blockedMessages_ s)
  ∨ (fst after = false
     ∧ blockedMessages_ (snd after) = blockedMessages_ s + 1
     ∧ allowedMessages_ (snd after) = allowedMessages_ s).
Proof.
  intros Ha Hb after.
  destruct (allow_counters_wrap now nowRefill ip clientId s) as [(?&?&?)|(?&?&?)];
    [left|right]; subst after; rewrite <- uint64_incr_small by done; done.
Qed.

Lemma C4_allow_counts_once_witness :
  let after := allow Data.t0 Data.t0 "1.1.1.1" "c" Data.after_one_allow in
  (fst after = true
   ∧ allowedMessages_ (snd after) = allowedMessages_ Data.after_one_allow + 1
   ∧ blockedMessages_ (snd after) = blockedMessages_ Data.after_one_allow)
  ∨ (fst after = false
     ∧ blockedMessages_ (snd after) = blockedMessages_ Data.after_one_allow + 1
     ∧ allowedMessages_ (snd after) = allowedMessages_ Data.after_one_allow).
Proof.
  apply (C4_allow_counts_once Data.t0 Data.t0 "1.1.1.1" "c" Data.after_one_allow);
    vm_compute; split; congruence.
Defined.

(** C7. [setClientPolicy clientId policy] installs or replaces the override
    of [clientId] and changes nothing else: the other overrides, the default
    policy, the bucket table (no bucket created, none reset, every field of
    every bucket as it was) and both counters stay; the policy is the one the
    next call for [clientId] refills with. *)
Theorem C7_setClientPolicy_frame
    (clientId : string) (policy : RateLimitPolicy) (s : RateLimiter) :
  let s' := setClientPolicy clientId policy s in
  clientPolicies_ s' !! clientId = Some policy
  ∧ (∀ other, other ≠ clientId → clientPolicies_ s' !! other = clientPolicies_ s !! other)
  ∧ buckets_ s' = buckets_ s
  ∧ defaultPolicy_ s' = defaultPolicy_ s
  ∧ allowedMessages_ s' = allowedMessages_ s
  ∧ blockedMessages_ s' = blockedMessages_ s
  ∧ effective_policy s' clientId = policy.
Proof.
  cbv zeta. unfold effective_policy. cbn.
  rewrite lookup_insert_eq. repeat split.
  intros other Hne. by apply lookup_insert_ne.
Qed.

(** C8. [cleanupExpired] at clock value [now] removes exactly the buckets
    whose [lastRefill] lies more than one hour before [now], keeps every other
    bucket as it is, leaves the overrides, the default policy and both
    counters unchanged, and running it again at the same [now] changes
    nothing more. *)
Theorem C8_cleanupExpired_exact_idempotent (now : Chrono.time_point) (s : RateLimiter) :
  let s' := cleanupExpired now s in
  (∀ key B, buckets_ s' !! key = Some B
            ↔ buckets_ s !! key = Some B ∧ ¬ (now - lastRefill B > Chrono.hours 1))
  ∧ (∀ key, buckets_ s' !! key = None
            ↔ buckets_ s !! key = None
              ∨ ∃ B, buckets_ s !! key = Some B ∧ now - lastRefill B > Chrono.hours 1)
  ∧ clientPolicies_ s' = clientPolicies_ s
  ∧ defaultPolicy_ s' = defaultPolicy_ s
  ∧ allowedMessages_ s' = allowedMessages_ s
  ∧ blockedMessages_ s' = blockedMessages_ s
  ∧ cleanupExpired now s' = s'.
Proof.
  cbv zeta.
  assert (Hexp : ∀ B, expired now B = false ↔ ¬ (now - lastRefill B > Chrono.hours 1)).
  { intros B. unfold expired. destruct (Z.ltb_spec (Chrono.hours 1) (now - lastRefill B)).
    - split; [discriminate | lia].
    - split; [lia | reflexivity]. }
  split; [|split; [|repeat split]].
  - intros key B. unfold cleanupExpired. cbn.
    rewrite map_lookup_filter_Some. cbn. by rewrite Hexp.
  - intros key. unfold cleanupExpired. cbn.
    rewrite map_lookup_filter_None. cbn. split.
    + intros [Hn | Hall]; [by left|].
      destruct (buckets_ s !! key) as [B|] eqn:E; [right | by left].
      exists B. split; [done|].
      specialize (Hall B eq_refl).
      destruct (decide (now - lastRefill B > Chrono.hours 1)) as [?|Hn]; [done|].
      apply Hexp in Hn. congruence.
    + intros [Hn | (B & HB & Hold)]; [by left | right].
      intros B' HB' Hkeep. rewrite HB in HB'. injection HB' as <-.
      apply Hexp in Hkeep. lia.
  - unfold cleanupExpired, set_buckets. cbn. f_equal.
    apply map_eq. intros key. apply option_eq. intros B.
    rewrite !map_lookup_filter_Some. cbn. tauto.
Qed.

(** C10. A call to [allow] that finds its bucket blocked with
    [now < blockedUntil] is denied and does not move the block: [isBlocked]
    and [blockedUntil] are as before, and the bucket is exactly the old one
    after the refill, which writes [tokens] and [lastRefill] only. *)
Theorem C10_denied_in_window_keeps_block
    (now nowRefill : Chrono.time_point) (ip clientId : string) (s : RateLimiter)
    (B : TokenBucket) :
  buckets_ s !! bucket_key ip clientId = Some B →
  isBlocked B = true →
  now < blockedUntil B →
  let after := allow now nowRefill ip clientId s in
  fst after = false
  ∧ ∃ B', buckets_ (snd after) !! bucket_key ip clientId = Some B'
          ∧ isBlocked B' = true
          ∧ blockedUntil B' = blockedUntil B
          ∧ lastRefill B' = nowRefill
          ∧ B' = refillBucket nowRefill (effective_policy s clientId) B.
Proof.
  intros HB Hb Hlt after. subst after. rewrite allow_unfold. cbn [fst snd buckets_].
  rewrite HB. cbn [default]. rewrite checkBucket_blocked by done. cbn [fst snd].
  split; [done|]. eexists. rewrite lookup_insert_eq. split; [done|].
  by rewrite refillBucket_isBlocked, refillBucket_blockedUntil, refillBucket_lastRefill.
Qed.

Lemma C10_denied_in_window_keeps_block_witness :
  let B := mkBucket 0%float Data.t0 2000000000 true in
  let after := allow 1500000000 1500000000 "1.1.1.1" "c" Data.after_four in
  fst after = false
  ∧ ∃ B', buckets_ (snd after) !! bucket_key "1.1.1.1" "c" = Some B'
          ∧ isBlocked B' = true
          ∧ blockedUntil B' = blockedUntil B
          ∧ lastRefill B' = 1500000000
          ∧ B' = refillBucket 1500000000 (effective_policy Data.after_four "c") B.
Proof.
  apply (C10_denied_in_window_keeps_block 1500000000 1500000000 "1.1.1.1" "c"
           Data.after_four (mkBucket 0%float Data.t0 2000000000 true)).
  - vm_compute. reflexivity.
  - reflexivity.
  - reflexivity.
Defined.

(** * Properties of the worker *)

Section WorkerFacts.

Variable char_is_signed : bool.

Implicit Types (st : ThrottleBox) (env : ConnEnv) (info : ClientInfo).

Local Arguments allow : simpl never.

Lemma incrementCounter_other name other m :
  other ≠ name →
  counters_ (incrementCounter name m) !! other = counters_ m !! other.
Proof.
  intros Hne. unfold incrementCounter. cbn.
  rewrite lookup_insert_ne by done.
  destruct (counters_ m !! name); [done|]. by rewrite lookup_insert_ne.
Qed.

Lemma incrementCounter_same name m :
  counters_ (incrementCounter name m) !! name
  = Some (Num.uint64_incr (default 0 (counters_ m !! name))).
Proof.
  unfold incrementCounter. cbn. rewrite lookup_insert_eq.
  destruct (counters_ m !! name) eqn:E; cbn.
  - by rewrite E.
  - by rewrite lookup_insert_eq.
Qed.

Lemma pumpBroker_metrics b st st' :
  pumpBroker b st = Some st' →
  metrics_ st' = metrics_ st ∧ rateLimiter_ st' = rateLimiter_ st.
Proof.
  unfold pumpBroker. destruct b as [br|]; [|by intros [= <-]].
  destruct (_ <=? _); [done|]. destruct (_ =? _); [|done]. by intros [= <-].
Qed.

(** The pump loop counts allowed and blocked messages only. *)
Lemma forwardTraffic_counter_other info steps st name :
  name ≠ "blocked_messages" → name ≠ "allowed_messages" →
  counters_ (metrics_ (forwardTraffic info steps st)) !! name
  = counters_ (metrics_ st) !! name.
Proof.
  intros Hb Ha. revert st.
  induction steps as [|step steps IH]; intros st; cbn -[allow incrementCounter].
  - done.
  - destruct (running step); cbn; [|done].
    destruct (activity step <=? 0); [apply IH|].
    destruct (client_ready step) as [cr|].
    + destruct (bytesRead (client_recv cr) <=? 0); [done|].
      destruct (allow _ _ _ _ _) as [[|] rl]; cbn -[incrementCounter].
      * destruct (_ =? _); cbn -[incrementCounter].
        -- destruct (pumpBroker _ _) as [st'|] eqn:E; cbn -[incrementCounter].
           ++ rewrite IH. apply pumpBroker_metrics in E as [-> _]. cbn.
              by apply incrementCounter_other.
           ++ by apply incrementCounter_other.
        -- by apply incrementCounter_other.
      * rewrite IH. cbn. by apply incrementCounter_other.
    + destruct (pumpBroker _ _) as [st'|] eqn:E; cbn; [|done].
      rewrite IH. by apply pumpBroker_metrics in E as [-> _].
Qed.

Lemma extractClientInfo_short peer r info :
  bytesRead r < 10 → fst (extractClientInfo char_is_signed peer r info) = false.
Proof.
  intros H. unfold extractClientInfo.
  destruct (Z.ltb_spec (bytesRead r) 10); [done|lia].
Qed.

Lemma extractClientInfo_enough peer r info :
  10 ≤ bytesRead r → fst (extractClientInfo char_is_signed peer r info) = true.
Proof.
  intros H. unfold extractClientInfo.
  destruct (Z.ltb_spec (bytesRead r) 10); [lia|done].
Qed.

Lemma append_length (a b : string) :
  String.length (a +:+ b) = (String.length a + String.length b)%nat.
Proof. induction a as [|c a IH]; simpl; [done | f_equal; exact IH]. Qed.

Lemma anonymous_ne (x : string) : "anonymous_" +:+ x ≠ x.
Proof.
  intros H. apply (f_equal String.length) in H.
  rewrite append_length in H. cbn in H. lia.
Qed.

(** The identity of a connection whose peek holds no Client-ID. *)
Lemma extractClientInfo_anonymous peer r :
  10 ≤ bytesRead r → parseClientId char_is_signed r "" = "" →
  extractClientInfo char_is_signed peer r (mkClientInfo "" "")
  = (true, {| ip := default "unknown" peer;
              clientId := "anonymous_" +:+ default "unknown" peer |}).
Proof.
  intros Hn Hp. unfold extractClientInfo. cbn [clientId ip].
  destruct (Z.ltb_spec (bytesRead r) 10); [lia|]. by rewrite Hp.
Qed.

End WorkerFacts.

(** C3. A connection from which fewer than 10 bytes are peeked is abandoned:
    the only system call of the worker is the close of the client socket (no
    broker socket is created), and the metrics and the rate limiter are as
    before; in particular [client_disconnects] does not move, while a worker
    that enters the pump loop (at least 10 bytes, broker connected) increments
    it exactly once, whatever the loop does. *)
Theorem C3_short_peek_abandons
    (char_is_signed : bool) (env : ConnEnv) (st : ThrottleBox) :
  let st' := handleClient char_is_signed env st in
  (bytesRead (peeked env) < 10 →
     syscalls st' = syscalls st ++ [SocketClose ClientSocket]
     ∧ metrics_ st' = metrics_ st
     ∧ rateLimiter_ st' = rateLimiter_ st)
  ∧ (10 ≤ bytesRead (peeked env) → broker env = BrokerConnected →
       counters_ (metrics_ st') !! "client_disconnects"
       = Some (Num.uint64_incr
                 (default 0 (counters_ (metrics_ st) !! "client_disconnects")))).
Proof.
  cbv zeta. unfold handleClient. split.
  - intros Hshort.
    pose proof (extractClientInfo_short char_is_signed (peer env) (peeked env)
                  (mkClientInfo "" "") Hshort) as E.
    destruct (extractClientInfo _ _ _ _) as [ok info]. cbn in E. subst ok. done.
  - intros Hlong Hbroker.
    pose proof (extractClientInfo_enough char_is_signed (peer env) (peeked env)
                  (mkClientInfo "" "") Hlong) as E.
    destruct (extractClientInfo _ _ _ _) as [ok info]. cbn in E. subst ok.
    rewrite Hbroker. cbn [negb connectToBroker].
    unfold count at 1. cbn [metrics_]. rewrite incrementCounter_same.
    do 2 f_equal. cbn [sys metrics_].
    by rewrite forwardTraffic_counter_other.
Qed.

Lemma C3_short_peek_abandons_witness :
  let st' := handleClient true Data.env_short Data.box0 in
  syscalls st' = syscalls Data.box0 ++ [SocketClose ClientSocket]
  ∧ metrics_ st' = metrics_ Data.box0
  ∧ rateLimiter_ st' = rateLimiter_ Data.box0.
Proof.
  apply (proj1 (C3_short_peek_abandons true Data.env_short Data.box0)).
  vm_compute. reflexivity.
Defined.

(** * The claims about the CONNECT parser and the identity *)

Section BytesFacts.

Lemma Bytes_all_complete (b : byte) : In b Bytes.all.
Proof.
  assert (E : nth (N.to_nat (Byte.to_N b)) Bytes.all x00 = b)
    by (destruct b; vm_compute; reflexivity).
  rewrite <- E. apply nth_In.
  pose proof (Byte.to_N_bounded b) as Hb.
  change (length Bytes.all) with 256%nat. lia.
Qed.

Lemma Bytes_for_all (P : byte → bool) : Bytes.for_all P = true → ∀ b, P b = true.
Proof.
  unfold Bytes.for_all. rewrite forallb_forall. intros H b.
  apply H, Bytes_all_complete.
Qed.

Lemma val_range (b : byte) : 0 ≤ Bytes.val b < 256.
Proof. unfold Bytes.val. pose proof (Byte.to_N_bounded b). lia. Qed.

Lemma clientIdLen_all_bytes :
  Bytes.for_all (λ hi, Bytes.for_all (λ lo, Bytes.check_clientIdLen hi lo)) = true.
Proof. vm_compute. reflexivity. Qed.

(** The length the parser computes, on a platform with unsigned [char] and
    on one with signed [char]. *)
Lemma clientIdLen_closed_form (hi lo : byte) :
  clientIdLen false hi lo = Spec.be16 hi lo
  ∧ clientIdLen true hi lo
    = if Bytes.val lo <? 128 then Spec.be16 hi lo else 65280 + Bytes.val lo.
Proof.
  pose proof (Bytes_for_all _ clientIdLen_all_bytes hi) as H1.
  pose proof (Bytes_for_all _ H1 lo) as Hc.
  unfold Bytes.check_clientIdLen in Hc.
  apply andb_prop in Hc as [H1' H2].
  apply Z.eqb_eq in H1', H2. done.
Qed.

Lemma be16_range (hi lo : byte) :
  Spec.be16 hi lo = 256 * Bytes.val hi + Bytes.val lo
  ∧ 0 ≤ Spec.be16 hi lo < 65536.
Proof.
  unfold Spec.be16. fold (Bytes.val hi) (Bytes.val lo).
  pose proof (val_range hi). pose proof (val_range lo). lia.
Qed.

(** A length of 2^15 or more never passes the bounds check of a peek into
    the 1024-byte buffer. *)
Lemma parseClientId_too_long cs r clientId0 :
  bytesRead r ≤ 1024 →
  32768 ≤ clientIdLen cs (at_ (buffer r) 10) (at_ (buffer r) 11) →
  parseClientId cs r clientId0 = clientId0.
Proof.
  intros Hr Hlen. unfold parseClientId.
  destruct (_ =? 16); [|done]. destruct (10 + 2 <? bytesRead r); [|done].
  destruct (Z.ltb_spec (10 + 2 + clientIdLen cs (at_ (buffer r) 10)
                          (at_ (buffer r) (10 + 1))) (bytesRead r)); [|done].
  change (10 + 1) with 11 in *. lia.
Qed.

End BytesFacts.

(** C1 (amended). For every connection whose peek holds no Client-ID, the
    worker names the client ["anonymous_" + ip], and that string, which
    differs from the IP string, is the key of the rate limiter: each call the
    worker makes reads and updates the bucket filed under ["anonymous_" + ip]
    and leaves the bucket filed under the IP string as it was.  The IP
    string is the key exactly when [allow] is handed an empty Client-ID or a
    Client-ID equal to the IP string, and the worker hands it neither. *)
Theorem C1_anonymous_key_is_display_string
    (char_is_signed : bool) (peer : option string) (r : RecvResult) :
  10 ≤ bytesRead r →
  parseClientId char_is_signed r "" = "" →
  let info := snd (extractClientInfo char_is_signed peer r (mkClientInfo "" "")) in
  let anon := "anonymous_" +:+ default "unknown" peer in
  ip info = default "unknown" peer
  ∧ clientId info = anon
  ∧ bucket_key (ip info) (clientId info) = anon
  ∧ anon ≠ ip info
  ∧ clientId info ≠ ""
  ∧ (∀ ip', bucket_key ip' "" = ip')
  ∧ (∀ ip' id, bucket_key ip' id = ip' ↔ id = "" ∨ id = ip')
  ∧ ∀ now nowRefill s,
      let after := allow now nowRefill (ip info) (clientId info) s in
      buckets_ (snd after) !! anon
      = Some (snd (checkBucket now nowRefill (effective_policy s anon)
                     (default TokenBucket_default (buckets_ s !! anon))))
      ∧ buckets_ (snd after) !! ip info = buckets_ s !! ip info.
Proof.
  intros Hn Hp. cbv zeta.
  rewrite (extractClientInfo_anonymous char_is_signed peer r Hn Hp). cbn [snd ip clientId].
  assert (Hk : bucket_key (default "unknown" peer)
                 ("anonymous_" +:+ default "unknown" peer)
               = "anonymous_" +:+ default "unknown" peer) by reflexivity.
  split_and!.
  - reflexivity.
  - reflexivity.
  - exact Hk.
  - apply anonymous_ne.
  - done.
  - reflexivity.
  - intros ip' id. unfold bucket_key.
    destruct (String.eqb_spec id "") as [->|Hid]; [split; [by left|done]|].
    split; [by right | by intros [|]].
  - intros now nowRefill s. split.
    + rewrite <- Hk at 1. apply allow_buckets_key.
    + apply allow_buckets_other. rewrite Hk. intros E. symmetry in E.
      by apply anonymous_ne in E.
Qed.

Lemma C1_anonymous_key_is_display_string_witness :
  let r := RecvBytes Data.not_connect in
  let info := snd (extractClientInfo true (Some "10.0.0.7") r (mkClientInfo "" "")) in
  let anon := "anonymous_" +:+ default "unknown" (Some "10.0.0.7") in
  ip info = default "unknown" (Some "10.0.0.7")
  ∧ clientId info = anon
  ∧ bucket_key (ip info) (clientId info) = anon
  ∧ anon ≠ ip info
  ∧ clientId info ≠ ""
  ∧ (∀ ip', bucket_key ip' "" = ip')
  ∧ (∀ ip' id, bucket_key ip' id = ip' ↔ id = "" ∨ id = ip')
  ∧ ∀ now nowRefill s,
      let after := allow now nowRefill (ip info) (clientId info) s in
      buckets_ (snd after) !! anon
      = Some (snd (checkBucket now nowRefill (effective_policy s anon)
                     (default TokenBucket_default (buckets_ s !! anon))))
      ∧ buckets_ (snd after) !! ip info = buckets_ s !! ip info.
Proof.
  apply (C1_anonymous_key_is_display_string true (Some "10.0.0.7")
           (RecvBytes Data.not_connect)).
  - vm_compute. congruence.
  - vm_compute. reflexivity.
Defined.

(** C1, as stated, fails: a worker whose peek holds no Client-ID and that
    passes one chunk files the bucket under ["anonymous_10.0.0.7"]; no bucket
    is filed under the peer's IP string ["10.0.0.7"]. *)
Lemma C1_counterexample :
  let st' := handleClient true Data.env_anonymous Data.box0 in
  parseClientId true (peeked Data.env_anonymous) "" = ""
  ∧ peer Data.env_anonymous = Some "10.0.0.7"
  ∧ buckets_ (rateLimiter_ st') !! "10.0.0.7" = None
  ∧ buckets_ (rateLimiter_ st') !! "anonymous_10.0.0.7"
    = Some {| tokens := 19%float; lastRefill := Data.t0;
              blockedUntil := 0; isBlocked := false |}
  ∧ allowedMessages_ (rateLimiter_ st') = 1.
Proof. vm_compute. repeat split. Qed.

(** The parsing block reads its length at offset 10 and takes the
    Client-ID from offset 12, and only when it ends strictly before the end
    of the peeked bytes. *)
Lemma parseClientId_offset_10 (char_is_signed : bool) (r : RecvResult) (clientId0 : string) :
  let len := clientIdLen char_is_signed (at_ (buffer r) 10) (at_ (buffer r) 11) in
  parseClientId char_is_signed r clientId0 =
  if (char_to_int char_is_signed (at_ (buffer r) 0) =? 16)
     && (12 <? bytesRead r) && (12 + len <? bytesRead r)
  then string_at (buffer r) 12 len
  else clientId0.
Proof.
  cbv zeta. unfold parseClientId. change (10 + 2) with 12. change (10 + 1) with 11.
  destruct (_ =? 16); [|done]. destruct (12 <? bytesRead r); done.
Qed.

(** C6, on the code: for the CONNECT packet laid out as the architecture guide
    documents it (Client-ID length at bytes 14 and 15), the parser of the
    specification finds the Client-ID "c1", while [extractClientInfo] reads
    bytes 10 and 11 (protocol level and connect flags, a length of 770), finds
    no Client-ID and names the client anonymous. *)
Theorem C6_offset_divergence :
  10 ≤ bytesRead (RecvBytes Data.connect_v31)
  ∧ Spec.parse_connect Data.connect_v31 = Some "c1"
  ∧ clientIdLen true (at_ Data.connect_v31 10) (at_ Data.connect_v31 11) = 770
  ∧ clientIdLen true (at_ Data.connect_v31 14) (at_ Data.connect_v31 15) = 2
  ∧ parseClientId true (RecvBytes Data.connect_v31) "" = ""
  ∧ parseClientId false (RecvBytes Data.connect_v31) "" = ""
  ∧ extractClientInfo true (Some "10.0.0.7") (RecvBytes Data.connect_v31)
      (mkClientInfo "" "")
    = (true, {| ip := "10.0.0.7"; clientId := "anonymous_10.0.0.7" |}).
Proof. vm_compute. split_and!; congruence. Qed.

(** C9 (amended). On a platform with signed [char] the computed length is
    the 16-bit big-endian value exactly when the low byte is below 0x80 or the
    high byte is 0xFF: sign extension of the high byte is cut off by the
    conversion to [uint16_t], sign extension of the low byte sets the whole
    high byte (the length is 0xFF00 + low byte).  With unsigned [char] it is
    always the big-endian value.  With signed [char], whenever one of the two
    bytes has its high bit set, and with unsigned [char], whenever the high
    byte has it set, the computed length is at least 0x8000, the bounds check
    of a peek of at most 1024 bytes fails, no Client-ID is extracted and the
    client is named anonymous.  With unsigned [char] and a high byte below
    0x80 the length is below 0x8000 whatever the low byte is, and a peek that
    starts with 0x10 and holds more than 12 + length bytes has its Client-ID
    read from offset 12. *)
Theorem C9_signed_char_length (hi lo : byte) :
  clientIdLen false hi lo = Spec.be16 hi lo
  ∧ (clientIdLen true hi lo = Spec.be16 hi lo ↔ Bytes.val lo < 128 ∨ Bytes.val hi = 255)
  ∧ (128 ≤ Bytes.val lo → clientIdLen true hi lo = 65280 + Bytes.val lo)
  ∧ (128 ≤ Bytes.val hi ∨ 128 ≤ Bytes.val lo →
       32768 ≤ clientIdLen true hi lo
       ∧ ∀ r peer,
           10 ≤ bytesRead r ≤ 1024 →
           at_ (buffer r) 10 = hi → at_ (buffer r) 11 = lo →
           parseClientId true r "" = ""
           ∧ snd (extractClientInfo true peer r (mkClientInfo "" ""))
             = {| ip := default "unknown" peer;
                  clientId := "anonymous_" +:+ default "unknown" peer |})
  ∧ (128 ≤ Bytes.val hi →
       32768 ≤ clientIdLen false hi lo
       ∧ ∀ r peer,
           10 ≤ bytesRead r ≤ 1024 →
           at_ (buffer r) 10 = hi → at_ (buffer r) 11 = lo →
           parseClientId false r "" = ""
           ∧ snd (extractClientInfo false peer r (mkClientInfo "" ""))
             = {| ip := default "unknown" peer;
                  clientId := "anonymous_" +:+ default "unknown" peer |})
  ∧ (Bytes.val hi < 128 →
       clientIdLen false hi lo < 32768
       ∧ ∀ r,
           at_ (buffer r) 0 = x10 →
           at_ (buffer r) 10 = hi → at_ (buffer r) 11 = lo →
           12 + Spec.be16 hi lo < bytesRead r →
           parseClientId false r "" = string_at (buffer r) 12 (Spec.be16 hi lo)).
Proof.
  destruct (clientIdLen_closed_form hi lo) as [Hu Hs].
  destruct (be16_range hi lo) as [Hbe Hr].
  pose proof (val_range hi) as Hh. pose proof (val_range lo) as Hl.
  assert (Hbig : 128 ≤ Bytes.val hi ∨ 128 ≤ Bytes.val lo → 32768 ≤ clientIdLen true hi lo).
  { rewrite Hs. destruct (Z.ltb_spec (Bytes.val lo) 128); lia. }
  assert (Hbigu : 128 ≤ Bytes.val hi → 32768 ≤ clientIdLen false hi lo).
  { rewrite Hu. lia. }
  split_and!.
  - exact Hu.
  - rewrite Hs. destruct (Z.ltb_spec (Bytes.val lo) 128); [tauto|]. lia.
  - intros H. rewrite Hs. destruct (Z.ltb_spec (Bytes.val lo) 128); lia.
  - intros Hhigh. split; [by apply Hbig|].
    intros r peer [Hn Hmax] <- <-.
    assert (Hp : parseClientId true r "" = "")
      by (apply parseClientId_too_long; [done | by apply Hbig]).
    split; [done|].
    by rewrite (extractClientInfo_anonymous true peer r Hn Hp).
  - intros Hhigh. split; [by apply Hbigu|].
    intros r peer [Hn Hmax] <- <-.
    assert (Hp : parseClientId false r "" = "")
      by (apply parseClientId_too_long; [done | by apply Hbigu]).
    split; [done|].
    by rewrite (extractClientInfo_anonymous false peer r Hn Hp).
  - intros Hlow. split; [rewrite Hu; lia|].
    intros r H0 H10 H11 Hlen.
    rewrite parseClientId_offset_10. cbv zeta. rewrite H0, H10, H11, Hu.
    change (char_to_int false x10 =? 16) with true.
    destruct (Z.ltb_spec 12 (bytesRead r)); [|lia].
    destruct (Z.ltb_spec (12 + Spec.be16 hi lo) (bytesRead r)); [done|lia].
Qed.

Lemma C9_signed_char_length_witness :
  32768 ≤ clientIdLen true x00 x80
  ∧ ∀ r peer,
      10 ≤ bytesRead r ≤ 1024 →
      at_ (buffer r) 10 = x00 → at_ (buffer r) 11 = x80 →
      parseClientId true r "" = ""
      ∧ snd (extractClientInfo true peer r (mkClientInfo "" ""))
        = {| ip := default "unknown" peer;
             clientId := "anonymous_" +:+ default "unknown" peer |}.
Proof.
  apply (proj1 (proj2 (proj2 (proj2 (C9_signed_char_length x00 x80))))).
  right. vm_compute. congruence.
Defined.

(** C9, as stated, fails: with signed [char] and the bytes 0x80 0x00 the high
    byte has its high bit set, yet the computed length is the big-endian
    value 0x8000; with 0xFF 0x80 both bytes have it set and the length is
    again the big-endian value. *)
Lemma C9_counterexample :
  128 ≤ Bytes.val x80
  ∧ clientIdLen true x80 x00 = 32768
  ∧ Spec.be16 x80 x00 = 32768
  ∧ clientIdLen true xff x80 = Spec.be16 xff x80.
Proof. vm_compute. split_and!; congruence. Qed.

(** A well-formed peek with a 128-byte Client-ID length (bytes 0x00 0x80):
    signed [char] turns the length into 0xFF80. *)
Lemma clientIdLen_128_signed :
  clientIdLen true (at_ Data.len128 10) (at_ Data.len128 11) = 65408
  ∧ clientIdLen false (at_ Data.len128 10) (at_ Data.len128 11) = 128.
Proof. vm_compute. done. Qed.

(** * The token bounds *)

Section TokenBounds.

Implicit Types (s : RateLimiter) (P : RateLimitPolicy) (B : TokenBucket).

Lemma to_milliseconds_nonneg (d : Chrono.duration) :
  0 ≤ d → 0 ≤ Chrono.to_milliseconds d.
Proof.
  intros H. unfold Chrono.to_milliseconds, Chrono.NS_PER_MS.
  apply Z.quot_pos; lia.
Qed.

(** After the refill the tokens lie between 0 and the capacity of the
    policy. *)
Lemma refillBucket_tokens_bounds now P B :
  0 ≤ burstSize P < 2 ^ 53 →
  PrimFloat.leb 0 (maxMessagesPerSec P) = true →
  lastRefill B ≤ now →
  PrimFloat.leb 0 (tokens B) = true →
  PrimFloat.leb 0 (tokens (refillBucket now P B)) = true
  ∧ PrimFloat.leb (tokens (refillBucket now P B)) (Num.double_of_Z (burstSize P)) = true.
Proof.
  intros Hb Hr Hnow Ht. unfold refillBucket.
  destruct (lastRefill B =? Chrono.epoch); cbn [tokens].
  - by apply burst_bounds.
  - apply refill_bounds; [done|done| |done].
    apply to_milliseconds_nonneg. lia.
Qed.

(** After the whole decision too. *)
Lemma checkBucket_tokens_bounds now nowRefill P B :
  0 ≤ burstSize P < 2 ^ 53 →
  PrimFloat.leb 0 (maxMessagesPerSec P) = true →
  lastRefill B ≤ nowRefill →
  PrimFloat.leb 0 (tokens B) = true →
  let B' := snd (checkBucket now nowRefill P B) in
  PrimFloat.leb 0 (tokens B') = true
  ∧ PrimFloat.leb (tokens B') (Num.double_of_Z (burstSize P)) = true.
Proof.
  intros Hb Hr Hnow Ht. cbv zeta.
  pose proof (refillBucket_tokens_bounds nowRefill P B Hb Hr Hnow Ht) as Href.
  unfold checkBucket. set (B1 := refillBucket nowRefill P B) in *.
  destruct (isBlocked B1 && (now <? blockedUntil B1)); [done|].
  assert (Hsame : tokens (if isBlocked B1 && (blockedUntil B1 <=? now)
                          then {| tokens := tokens B1; lastRefill := lastRefill B1;
                                  blockedUntil := blockedUntil B1; isBlocked := false |}
                          else B1) = tokens B1)
    by (destruct (isBlocked B1 && (blockedUntil B1 <=? now)); reflexivity).
  rewrite Hsame. unfold Num.geb.
  destruct (PrimFloat.leb 1 (tokens B1)) eqn:E1; cbn [snd tokens].
  - apply consume_bounds; tauto.
  - destruct (0 <? blockDurationSec P); cbn [snd tokens]; by rewrite ?Hsame.
Qed.

End TokenBounds.

(** C5 (amended). After every completed [allow] (under a policy whose
    capacity is a non-negative [int] and whose rate is not negative, the
    steady clock not running backwards), the bucket the call decided on holds
    [0 <= tokens <= burstSize] for the policy the call used, and no bucket
    holds negative tokens.  [setClientPolicy] and [cleanupExpired] write no
    bucket: they keep [0 <= tokens], and the capacity of a newly installed
    policy bounds the tokens only from the bucket's next call on. *)
Theorem C5_tokens_within_capacity_after_allow
    (now nowRefill : Chrono.time_point) (ip clientId : string) (s : RateLimiter) :
  let key := bucket_key ip clientId in
  let P := effective_policy s clientId in
  0 ≤ burstSize P < 2 ^ 31 →
  PrimFloat.leb 0 (maxMessagesPerSec P) = true →
  (∀ B, buckets_ s !! key = Some B → lastRefill B ≤ nowRefill) →
  0 ≤ nowRefill →
  (∀ k B, buckets_ s !! k = Some B → PrimFloat.leb 0 (tokens B) = true) →
  let s' := snd (allow now nowRefill ip clientId s) in
  (∃ B', buckets_ s' !! key = Some B'
         ∧ PrimFloat.leb 0 (tokens B') = true
         ∧ PrimFloat.leb (tokens B') (Num.double_of_Z (burstSize P)) = true)
  ∧ (∀ k B, buckets_ s' !! k = Some B → PrimFloat.leb 0 (tokens B) = true)
  ∧ (∀ id policy, buckets_ (setClientPolicy id policy s') = buckets_ s')
  ∧ (∀ t k B, buckets_ (cleanupExpired t s') !! k = Some B → buckets_ s' !! k = Some B).
Proof.
  intros key P Hb Hr Hclock Hnow Hinv s'.
  assert (Hkey : PrimFloat.leb 0 (tokens (snd (checkBucket now nowRefill P
                   (default TokenBucket_default (buckets_ s !! key))))) = true
                 ∧ PrimFloat.leb (tokens (snd (checkBucket now nowRefill P
                   (default TokenBucket_default (buckets_ s !! key)))))
                     (Num.double_of_Z (burstSize P)) = true).
  { apply checkBucket_tokens_bounds; [lia | done | |].
    - destruct (buckets_ s !! key) as [B|] eqn:E; cbn; [by apply Hclock | done].
    - destruct (buckets_ s !! key) as [B|] eqn:E; cbn; [by apply (Hinv key) | done]. }
  split_and!.
  - eexists. split; [apply allow_buckets_key | exact Hkey].
  - intros k B. destruct (decide (k = key)) as [->|Hne].
    + subst s' key. rewrite allow_buckets_key. intros [= <-]. apply Hkey.
    + subst s'. rewrite allow_buckets_other by done. apply Hinv.
  - reflexivity.
  - intros t k B. unfold cleanupExpired. cbn [buckets_ set_buckets].
    rewrite map_lookup_filter_Some. tauto.
Qed.

Lemma C5_tokens_within_capacity_after_allow_witness :
  let s := Data.after_one_allow in
  let P := effective_policy s "c" in
  let s' := snd (allow 2500000000 2500000000 "1.1.1.1" "c" s) in
  (∃ B', buckets_ s' !! bucket_key "1.1.1.1" "c" = Some B'
         ∧ PrimFloat.leb 0 (tokens B') = true
         ∧ PrimFloat.leb (tokens B') (Num.double_of_Z (burstSize P)) = true)
  ∧ (∀ k B, buckets_ s' !! k = Some B → PrimFloat.leb 0 (tokens B) = true)
  ∧ (∀ id policy, buckets_ (setClientPolicy id policy s') = buckets_ s')
  ∧ (∀ t k B, buckets_ (cleanupExpired t s') !! k = Some B → buckets_ s' !! k = Some B).
Proof.
  assert (Hm : buckets_ Data.after_one_allow
               = <["c" := mkBucket 19%float Data.t0 0 false]> ∅)
    by (vm_compute; reflexivity).
  apply (C5_tokens_within_capacity_after_allow 2500000000 2500000000 "1.1.1.1" "c"
           Data.after_one_allow).
  - vm_compute. split; congruence.
  - vm_compute. reflexivity.
  - intros B. rewrite Hm. change (bucket_key "1.1.1.1" "c") with "c".
    rewrite lookup_insert_eq. intros [= <-]. vm_compute. congruence.
  - lia.
  - intros k B. rewrite Hm. rewrite lookup_insert_Some, lookup_empty.
    intros [[_ <-] | [_ ?]]; [vm_compute; reflexivity | done].
Defined.

(** C5, as stated, fails: after one allowed message under the default policy
    (capacity 20) the bucket of "c" holds 19 tokens; [setClientPolicy] then
    installs a policy of capacity 5 for "c" and the bucket still holds 19,
    which is not at most 5. *)
Lemma C5_counterexample :
  let s := setClientPolicy "c" Data.P_small Data.after_one_allow in
  buckets_ s !! "c" = Some {| tokens := 19%float; lastRefill := Data.t0;
                              blockedUntil := 0; isBlocked := false |}
  ∧ burstSize (effective_policy s "c") = 5
  ∧ PrimFloat.leb 19%float (Num.double_of_Z (burstSize (effective_policy s "c"))) = false
  ∧ PrimFloat.ltb (Num.double_of_Z (burstSize (effective_policy s "c"))) 19%float = true.
Proof. vm_compute. split_and!; reflexivity. Qed.

(** The CONNECT packet the repository's own mock client sends (Client-ID
    "test_client" announced at bytes 12 and 13) is not recognised either: the
    code reads the keep-alive (60) as the length. *)
Lemma mockConnect_not_recognised :
  clientIdLen false (at_ Data.mockConnect 10) (at_ Data.mockConnect 11) = 60
  ∧ extractClientInfo false (Some "127.0.0.1") (RecvBytes Data.mockConnect)
      (mkClientInfo "" "")
    = (true, {| ip := "127.0.0.1"; clientId := "anonymous_127.0.0.1" |}).
Proof. vm_compute. done. Qed.

(** * Further properties of the rate limiter *)

Section MoreFloatFacts.

(** A capacity of at least one is at least [1.0] as a float. *)
Lemma leb_one_burst (z : Z) :
  1 ≤ z < 2 ^ 53 → PrimFloat.leb 1 (Num.double_of_Z z) = true.
Proof.
  intros Hz. rewrite FloatAxioms.leb_spec, Prim2SF_one, double_of_Z_spec by lia.
  destruct z as [|p|p]; [lia| |lia]. cbn [binary_normalize].
  pose proof (digits2_pos_bounds p) as [Blo Bhi].
  assert (Hd : Zpos (digits2_pos p) ≤ 53).
  { destruct (Z.le_gt_cases (Zpos (digits2_pos p)) 53); [done|].
    assert (2 ^ 53 ≤ 2 ^ (Zpos (digits2_pos p) - 1)) by (apply Z.pow_le_mono_r; lia). lia. }
  rewrite (binary_round_exact p p 0 0) by (done || lia).
  apply SFleb_finite.
  destruct (Z.eq_dec (Zpos (digits2_pos p)) 1) as [E1|N1]; [right | left; lia].
  rewrite E1 in *. split; [lia|].
  change (2 ^ (1 - 1)) with 1 in Blo. change (2 ^ 1) with 2 in Bhi.
  assert (p = 1%positive) as -> by lia. done.
Qed.

(** A capacity of zero or less is below [1.0]. *)
Lemma leb_one_nonpos (z : Z) : z ≤ 0 → PrimFloat.leb 1 (Num.double_of_Z z) = false.
Proof.
  intros Hz. rewrite FloatAxioms.leb_spec, Prim2SF_one. unfold Num.double_of_Z.
  destruct (Z.ltb_spec z 0).
  - rewrite FloatAxioms.opp_spec, FloatAxioms.of_uint63_spec.
    pose proof (Uint63.to_Z_bounded (Uint63.of_Z (- z))) as [Hlo _].
    pose proof (binary_normalize_nn (Uint63.to_Z (Uint63.of_Z (- z))) 0 Hlo) as Hnn.
    destruct (binary_normalize _ _ _ _ _) as [s|s| |s m e]; try destruct s; done.
  - assert (z = 0) as -> by lia. reflexivity.
Qed.

Lemma Prim2SF_nan (x : float) : PrimFloat.is_nan x = true → Prim2SF x = S754_nan.
Proof. intros H. unfold Prim2SF. by rewrite H. Qed.

(** [std::min(b, t + s * r)] is [b] when the rate [r] is a NaN. *)
Lemma std_min_nan_rate (b t secs r : float) :
  PrimFloat.is_nan r = true →
  Num.std_min b (PrimFloat.add t (PrimFloat.mul secs r)) = b.
Proof.
  intros Hr. unfold Num.std_min.
  rewrite FloatAxioms.ltb_spec, FloatAxioms.add_spec, FloatAxioms.mul_spec, (Prim2SF_nan r Hr).
  assert (SF64mul (Prim2SF secs) S754_nan = S754_nan) as ->
    by (destruct (Prim2SF secs) as [[]|[]| |[] ? ?]; reflexivity).
  assert (SF64add (Prim2SF t) S754_nan = S754_nan) as ->
    by (destruct (Prim2SF t) as [[]|[]| |[] ? ?]; reflexivity).
  reflexivity.
Qed.

(** [x <= 0] fails exactly for the positive floats and for NaN. *)
Lemma leb_zero_false (x : float) :
  PrimFloat.leb x 0 = false ↔ PrimFloat.ltb 0 x = true ∨ PrimFloat.is_nan x = true.
Proof.
  rewrite FloatAxioms.leb_spec, FloatAxioms.ltb_spec, Prim2SF_zero.
  destruct (PrimFloat.is_nan x) eqn:En.
  - rewrite (Prim2SF_nan x En). cbn. tauto.
  - assert (Hn : Prim2SF x ≠ S754_nan).
    { unfold Prim2SF. rewrite En.
      destruct (PrimFloat.is_zero x); [done|]. destruct (PrimFloat.is_infinity x); [done|].
      destruct (Z.frexp x) as [r e]. destruct (shr_fexp _ _ _ _ _) as [m e'].
      by destruct (shr_m m). }
    destruct (Prim2SF x) as [[]|[]| |[] ? ?]; cbn; try done; split; (tauto || by left || by intros [|]).
Qed.

End MoreFloatFacts.

Section MoreRateLimiterFacts.

Implicit Types (s : RateLimiter) (P : RateLimitPolicy) (B : TokenBucket).
Implicit Types (now nowRefill : Chrono.time_point) (ip clientId key : string).

(** The decision on a bucket that [buckets_[key]] has just inserted. *)
Lemma checkBucket_default now nowRefill P :
  checkBucket now nowRefill P TokenBucket_default =
  if PrimFloat.leb 1 (Num.double_of_Z (burstSize P)) then
    (true, {| tokens := PrimFloat.sub (Num.double_of_Z (burstSize P)) 1;
              lastRefill := nowRefill; blockedUntil := Chrono.epoch; isBlocked := false |})
  else if 0 <? blockDurationSec P then
    (false, {| tokens := Num.double_of_Z (burstSize P); lastRefill := nowRefill;
               blockedUntil := now + Chrono.seconds (blockDurationSec P);
               isBlocked := true |})
  else
    (false, {| tokens := Num.double_of_Z (burstSize P); lastRefill := nowRefill;
               blockedUntil := Chrono.epoch; isBlocked := false |}).
Proof.
  unfold checkBucket, refillBucket, Num.geb. cbn.
  destruct (PrimFloat.leb 1 _); [done|]. by destruct (0 <? _).
Qed.

Lemma allow_absent_key now nowRefill ip clientId s :
  buckets_ s !! bucket_key ip clientId = None →
  1 ≤ burstSize (effective_policy s clientId) < 2 ^ 53 →
  fst (allow now nowRefill ip clientId s) = true.
Proof.
  intros Hnone Hb. rewrite allow_unfold. cbn [fst]. rewrite Hnone. cbn [default].
  rewrite checkBucket_default, leb_one_burst by done. done.
Qed.



(** A bucket that is not blocked stays so under a policy without block
    duration. *)
Lemma checkBucket_no_block now nowRefill P B :
  blockDurationSec P ≤ 0 → isBlocked B = false →
  isBlocked (snd (checkBucket now nowRefill P B)) = false.
Proof.
  intros Hd Hb. unfold checkBucket.
  rewrite refillBucket_isBlocked, Hb. cbn [andb].
  destruct (Num.geb _ _); cbn [snd isBlocked]; [by rewrite refillBucket_isBlocked|].
  destruct (Z.ltb_spec 0 (blockDurationSec P)); [lia|].
  cbn [snd]. by rewrite refillBucket_isBlocked.
Qed.

Lemma run_calls_policies (calls : list AllowCall) s :
  clientPolicies_ (snd (run_calls calls s)) = clientPolicies_ s
  ∧ defaultPolicy_ (snd (run_calls calls s)) = defaultPolicy_ s.
Proof.
  revert s. induction calls as [|c calls IH]; intros s; cbn [run_calls snd]; [done|].
  destruct (IH (snd (allow_call c s))) as [-> ->]. apply allow_policies.
Qed.

End MoreRateLimiterFacts.

(** X1. Independence: a run of calls none of which is for the key [key]
    leaves the bucket filed under [key] exactly as it was (present or
    absent), and no call ever changes the overrides or the default policy. *)
Theorem run_calls_leave_other_keys
    (calls : list AllowCall) (s : RateLimiter) (key : string) :
  Forall (λ c, bucket_key (call_ip c) (call_clientId c) ≠ key) calls →
  buckets_ (snd (run_calls calls s)) !! key = buckets_ s !! key
  ∧ clientPolicies_ (snd (run_calls calls s)) = clientPolicies_ s
  ∧ defaultPolicy_ (snd (run_calls calls s)) = defaultPolicy_ s.
Proof.
  intros Hall. split; [|apply run_calls_policies].
  revert s. induction Hall as [|c calls Hc _ IH]; intros s; cbn [run_calls snd]; [done|].
  rewrite IH. unfold allow_call. by apply allow_buckets_other.
Qed.

Lemma run_calls_leave_other_keys_witness :
  buckets_ (snd (run_calls Data.scenario_calls Data.after_one_allow)) !! "1.1.1.1"
  = buckets_ Data.after_one_allow !! "1.1.1.1"
  ∧ clientPolicies_ (snd (run_calls Data.scenario_calls Data.after_one_allow))
    = clientPolicies_ Data.after_one_allow
  ∧ defaultPolicy_ (snd (run_calls Data.scenario_calls Data.after_one_allow))
    = defaultPolicy_ Data.after_one_allow.
Proof.
  apply (run_calls_leave_other_keys Data.scenario_calls Data.after_one_allow "1.1.1.1").
  repeat constructor; vm_compute; congruence.
Defined.

(** X2. The first message of a key that has no bucket: with a capacity of at
    least one it is allowed and the new bucket holds [burstSize - 1] tokens,
    refilled at the refill's clock value and not blocked; with a capacity of
    zero or less it is denied (and blocked at once when the policy has a block
    duration). *)
Theorem first_message_of_new_key
    (now nowRefill : Chrono.time_point) (ip clientId : string) (s : RateLimiter) :
  buckets_ s !! bucket_key ip clientId = None →
  let P := effective_policy s clientId in
  let after := allow now nowRefill ip clientId s in
  (1 ≤ burstSize P < 2 ^ 31 →
     fst after = true
     ∧ buckets_ (snd after) !! bucket_key ip clientId
       = Some {| tokens := PrimFloat.sub (Num.double_of_Z (burstSize P)) 1;
                 lastRefill := nowRefill; blockedUntil := Chrono.epoch;
                 isBlocked := false |})
  ∧ (burstSize P ≤ 0 →
       fst after = false
       ∧ ∃ B, buckets_ (snd after) !! bucket_key ip clientId = Some B
              ∧ tokens B = Num.double_of_Z (burstSize P)
              ∧ lastRefill B = nowRefill
              ∧ isBlocked B = (0 <? blockDurationSec P)).
Proof.
  intros Hnone P after. subst after. rewrite allow_unfold. cbn [fst snd buckets_].
  rewrite lookup_insert_eq, Hnone. cbn [default]. fold P.
  rewrite checkBucket_default. split; intros Hb.
  - rewrite leb_one_burst by lia. done.
  - rewrite leb_one_nonpos by done.
    destruct (0 <? blockDurationSec P); (split; [done|]); eexists; done.
Qed.

Lemma first_message_of_new_key_witness :
  let s := RateLimiter_new Data.P_scenario in
  let P := effective_policy s "c" in
  let after := allow Data.t0 Data.t0 "1.1.1.1" "c" s in
  (1 ≤ burstSize P < 2 ^ 31 →
     fst after = true
     ∧ buckets_ (snd after) !! bucket_key "1.1.1.1" "c"
       = Some {| tokens := PrimFloat.sub (Num.double_of_Z (burstSize P)) 1;
                 lastRefill := Data.t0; blockedUntil := Chrono.epoch;
                 isBlocked := false |})
  ∧ (burstSize P ≤ 0 →
       fst after = false
       ∧ ∃ B, buckets_ (snd after) !! bucket_key "1.1.1.1" "c" = Some B
              ∧ tokens B = Num.double_of_Z (burstSize P)
              ∧ lastRefill B = Data.t0
              ∧ isBlocked B = (0 <? blockDurationSec P)).
Proof.
  apply (first_message_of_new_key Data.t0 Data.t0 "1.1.1.1" "c"
           (RateLimiter_new Data.P_scenario)).
  reflexivity.
Defined.




(** X4. A limiter without overrides whose default policy has no block
    duration never blocks: after any run of calls from its construction no
    bucket has [isBlocked] set, and [getStats] reports no blocked client. *)
Theorem no_block_duration_never_blocks
    (calls : list AllowCall) (P : RateLimitPolicy) (now : Chrono.time_point) :
  blockDurationSec P ≤ 0 →
  let s := snd (run_calls calls (RateLimiter_new P)) in
  (∀ key B, buckets_ s !! key = Some B → isBlocked B = false)
  ∧ blockedClients (getStats now s) = 0%nat.
Proof.
  intros Hd s.
  assert (Hinv : ∀ s0, clientPolicies_ s0 = ∅ → defaultPolicy_ s0 = P →
            (∀ key B, buckets_ s0 !! key = Some B → isBlocked B = false) →
            ∀ key B, buckets_ (snd (run_calls calls s0)) !! key = Some B → isBlocked B = false).
  { clear s. induction calls as [|c calls IH]; intros s0 Hov Hdef Hnb; cbn [run_calls snd]; [done|].
    destruct (allow_policies (call_now c) (call_nowRefill c) (call_ip c) (call_clientId c) s0)
      as [Hov' Hdef'].
    apply IH; unfold allow_call; [by rewrite Hov' | by rewrite Hdef' |].
    intros key B.
    destruct (decide (key = bucket_key (call_ip c) (call_clientId c))) as [->|Hne].
    - rewrite allow_buckets_key. intros [= <-].
      apply checkBucket_no_block.
      + unfold effective_policy. by rewrite Hov, lookup_empty, Hdef.
      + destruct (buckets_ s0 !! _) as [B0|] eqn:E; cbn; [by apply (Hnb _ _ E) | done].
    - rewrite allow_buckets_other by done. apply Hnb. }
  assert (Hs : ∀ key B, buckets_ s !! key = Some B → isBlocked B = false).
  { apply Hinv; done. }
  split; [exact Hs|].
  unfold getStats. cbn [blockedClients]. apply map_size_empty_iff.
  apply map_empty_filter. intros key B HB. cbn. by rewrite (Hs key B HB).
Qed.

Lemma no_block_duration_never_blocks_witness :
  let s := snd (run_calls Data.refill_test_calls (RateLimiter_new Data.P_no_block)) in
  (∀ key B, buckets_ s !! key = Some B → isBlocked B = false)
  ∧ blockedClients (getStats Data.t0 s) = 0%nat.
Proof.
  apply (no_block_duration_never_blocks Data.refill_test_calls Data.P_no_block Data.t0).
  vm_compute. congruence.
Defined.

(** X5. A rate that is a NaN switches the limit off: every refill of a
    bucket then sets [tokens] to [burstSize], so with a capacity of at least
    one every call that does not find its bucket inside a block window is
    allowed and leaves [burstSize - 1] tokens. *)
Theorem nan_rate_always_allows
    (now nowRefill : Chrono.time_point) (ip clientId : string) (s : RateLimiter) :
  let key := bucket_key ip clientId in
  let P := effective_policy s clientId in
  let B0 := default TokenBucket_default (buckets_ s !! key) in
  PrimFloat.is_nan (maxMessagesPerSec P) = true →
  1 ≤ burstSize P < 2 ^ 31 →
  isBlocked B0 && (now <? blockedUntil B0) = false →
  tokens (refillBucket nowRefill P B0) = Num.double_of_Z (burstSize P)
  ∧ fst (allow now nowRefill ip clientId s) = true
  ∧ ∃ B, buckets_ (snd (allow now nowRefill ip clientId s)) !! key = Some B
         ∧ tokens B = PrimFloat.sub (Num.double_of_Z (burstSize P)) 1.
Proof.
  intros key P B0 Hnan Hb Hwin.
  assert (Href : tokens (refillBucket nowRefill P B0) = Num.double_of_Z (burstSize P)).
  { unfold refillBucket. destruct (lastRefill B0 =? Chrono.epoch); cbn [tokens]; [done|].
    by apply std_min_nan_rate. }
  assert (Hc : checkBucket now nowRefill P B0
               = (true, {| tokens := PrimFloat.sub (Num.double_of_Z (burstSize P)) 1;
                           lastRefill := nowRefill; blockedUntil := blockedUntil B0;
                           isBlocked := false |})).
  { unfold checkBucket, Num.geb.
    rewrite refillBucket_isBlocked, refillBucket_blockedUntil, Hwin.
    assert (Ht : tokens (if isBlocked B0 && (blockedUntil B0 <=? now)
                         then {| tokens := tokens (refillBucket nowRefill P B0);
                                 lastRefill := lastRefill (refillBucket nowRefill P B0);
                                 blockedUntil := blockedUntil B0; isBlocked := false |}
                         else refillBucket nowRefill P B0) = Num.double_of_Z (burstSize P))
      by (destruct (isBlocked B0 && (blockedUntil B0 <=? now)); done).
    rewrite Ht, leb_one_burst by lia.
    destruct (isBlocked B0) eqn:Eb; cbn [andb] in *.
    - destruct (Z.ltb_spec now (blockedUntil B0)); [done|].
      destruct (Z.leb_spec (blockedUntil B0) now); [|lia]. cbn.
      by rewrite refillBucket_lastRefill.
    - cbn. by rewrite refillBucket_lastRefill, refillBucket_blockedUntil, refillBucket_isBlocked, Eb. }
  split; [done|]. rewrite allow_unfold. cbn [fst snd buckets_]. fold key P B0.
  rewrite Hc. cbn [fst snd]. split; [done|]. eexists. by rewrite lookup_insert_eq.
Qed.

Lemma nan_rate_always_allows_witness :
  let s := Data.after_nan in
  let now := Data.t0 + 1 in
  let key := bucket_key "1.1.1.1" "c" in
  let P := effective_policy s "c" in
  let B0 := default TokenBucket_default (buckets_ s !! key) in
  tokens (refillBucket now P B0) = Num.double_of_Z (burstSize P)
  ∧ fst (allow now now "1.1.1.1" "c" s) = true
  ∧ ∃ B, buckets_ (snd (allow now now "1.1.1.1" "c" s)) !! key = Some B
         ∧ tokens B = PrimFloat.sub (Num.double_of_Z (burstSize P)) 1.
Proof.
  apply (nan_rate_always_allows (Data.t0 + 1) (Data.t0 + 1) "1.1.1.1" "c" Data.after_nan).
  - vm_compute. reflexivity.
  - vm_compute. split; congruence.
  - vm_compute. reflexivity.
Defined.

Section CleanupFacts.

Implicit Types (s : RateLimiter) (P : RateLimitPolicy) (B : TokenBucket).

Lemma checkBucket_lastRefill now nowRefill P B :
  lastRefill (snd (checkBucket now nowRefill P B)) = nowRefill.
Proof.
  unfold checkBucket.
  destruct (isBlocked _ && (now <? _)); cbn [snd]; [apply refillBucket_lastRefill|].
  assert (Hl : lastRefill (if isBlocked (refillBucket nowRefill P B)
                              && (blockedUntil (refillBucket nowRefill P B) <=? now)
                           then {| tokens := tokens (refillBucket nowRefill P B);
                                   lastRefill := lastRefill (refillBucket nowRefill P B);
                                   blockedUntil := blockedUntil (refillBucket nowRefill P B);
                                   isBlocked := false |}
                           else refillBucket nowRefill P B) = nowRefill)
    by (destruct (_ && _); cbn; apply refillBucket_lastRefill).
  destruct (Num.geb _ _); cbn [snd lastRefill]; [done|].
  by destruct (0 <? _).
Qed.

Lemma cleanupExpired_lookup now s key :
  buckets_ (cleanupExpired now s) !! key
  = match buckets_ s !! key with
    | Some B => if expired now B then None else Some B
    | None => None
    end.
Proof.
  unfold cleanupExpired. cbn [buckets_ set_buckets].
  rewrite map_lookup_filter. destruct (buckets_ s !! key) as [B|]; cbn; [|done].
  destruct (expired now B); cbn; [|done].
  rewrite option_guard_False; done.
Qed.

Lemma expired_iff now B : expired now B = true ↔ now - lastRefill B > Chrono.hours 1.
Proof. unfold expired. rewrite Z.ltb_lt. lia. Qed.

Lemma cleanupExpired_effective_policy now s clientId :
  effective_policy (cleanupExpired now s) clientId = effective_policy s clientId.
Proof. reflexivity. Qed.

End CleanupFacts.

(** X6. Cleanups compose: two cleanups in a row, in either order, leave
    what one cleanup at the later of the two instants leaves, so a cleanup
    that runs late makes up for every cleanup that was skipped. *)
Theorem cleanupExpired_composes (now now' : Chrono.time_point) (s : RateLimiter) :
  cleanupExpired now' (cleanupExpired now s) = cleanupExpired (Z.max now now') s.
Proof.
  unfold cleanupExpired, set_buckets. cbn. f_equal.
  apply map_eq. intros key. apply option_eq. intros B.
  rewrite !map_lookup_filter_Some. cbn. unfold expired.
  destruct (Z.ltb_spec (Chrono.hours 1) (now - lastRefill B));
    destruct (Z.ltb_spec (Chrono.hours 1) (now' - lastRefill B));
    destruct (Z.ltb_spec (Chrono.hours 1) (Z.max now now' - lastRefill B));
    try tauto; lia.
Qed.

(** X7. A bucket that a call has just touched is kept by every cleanup that
    runs within one hour of the call's refill clock value, and is removed by
    a cleanup that runs later than that: a client is forgotten exactly when it
    has been silent for more than an hour, whether its calls were allowed or
    denied. *)
Theorem touched_bucket_and_cleanup
    (now nowRefill now' : Chrono.time_point) (ip clientId : string) (s : RateLimiter) :
  let key := bucket_key ip clientId in
  let s1 := snd (allow now nowRefill ip clientId s) in
  (now' - nowRefill ≤ Chrono.hours 1 →
     buckets_ (cleanupExpired now' s1) !! key = buckets_ s1 !! key
     ∧ is_Some (buckets_ (cleanupExpired now' s1) !! key))
  ∧ (now' - nowRefill > Chrono.hours 1 →
       buckets_ (cleanupExpired now' s1) !! key = None).
Proof.
  cbv zeta. rewrite cleanupExpired_lookup, allow_buckets_key.
  set (B := snd (checkBucket _ _ _ _)).
  assert (HB : lastRefill B = nowRefill) by apply checkBucket_lastRefill.
  split; intros H.
  - destruct (expired now' B) eqn:E; [apply expired_iff in E; lia|]. split; [done|by eexists].
  - destruct (expired now' B) eqn:E; [done|].
    assert (expired now' B = true) by (apply expired_iff; lia). congruence.
Qed.

(** X8. Garbage collection forgets a block: once [cleanupExpired] has
    removed an expired bucket, the next call for its key is decided as for a
    new client, so with a capacity of at least one it is allowed, even when
    the removed bucket was blocked and its window had not run out (in which
    case the same call without the cleanup is denied). *)
Theorem cleanup_forgets_block
    (now now2 nowRefill2 : Chrono.time_point) (ip clientId : string)
    (s : RateLimiter) (B : TokenBucket) :
  buckets_ s !! bucket_key ip clientId = Some B →
  now - lastRefill B > Chrono.hours 1 →
  1 ≤ burstSize (effective_policy s clientId) < 2 ^ 31 →
  buckets_ (cleanupExpired now s) !! bucket_key ip clientId = None
  ∧ fst (allow now2 nowRefill2 ip clientId (cleanupExpired now s)) = true
  ∧ (isBlocked B = true → now2 < blockedUntil B →
     fst (allow now2 nowRefill2 ip clientId s) = false).
Proof.
  intros HB Hexp Hb.
  assert (Hnone : buckets_ (cleanupExpired now s) !! bucket_key ip clientId = None).
  { rewrite cleanupExpired_lookup, HB.
    assert (expired now B = true) as -> by (by apply expired_iff). done. }
  split_and!; [done| |].
  - apply allow_absent_key; [done|]. rewrite cleanupExpired_effective_policy. lia.
  - intros Hblk Hlt. rewrite allow_unfold. cbn [fst]. rewrite HB. cbn [default].
    by rewrite checkBucket_blocked.
Qed.

Lemma cleanup_forgets_block_witness :
  let s := Data.after_long_block in
  let now := Data.t0 + Chrono.seconds 3601 in
  let now2 := Data.t0 + Chrono.seconds 3602 in
  let B := mkBucket 0%float Data.t0 (Data.t0 + Chrono.seconds 7200) true in
  buckets_ (cleanupExpired now s) !! bucket_key "1.1.1.1" "c" = None
  ∧ fst (allow now2 now2 "1.1.1.1" "c" (cleanupExpired now s)) = true
  ∧ (isBlocked B = true → now2 < blockedUntil B →
     fst (allow now2 now2 "1.1.1.1" "c" s) = false).
Proof.
  apply (cleanup_forgets_block (Data.t0 + Chrono.seconds 3601) (Data.t0 + Chrono.seconds 3602)
           (Data.t0 + Chrono.seconds 3602) "1.1.1.1" "c" Data.after_long_block
           (mkBucket 0%float Data.t0 (Data.t0 + Chrono.seconds 7200) true)).
  - vm_compute. reflexivity.
  - vm_compute. reflexivity.
  - vm_compute. split; congruence.
Defined.

(** X9. [getStats().totalClients] counts the keys that have a bucket: a
    call adds one exactly when its key had no bucket, [cleanupExpired] never
    increases the count, and [setClientPolicy] leaves it alone. *)
Theorem totalClients_counts_keys
    (now nowRefill t : Chrono.time_point) (ip clientId id : string)
    (policy : RateLimitPolicy) (s : RateLimiter) :
  totalClients (getStats t (snd (allow now nowRefill ip clientId s)))
  = match buckets_ s !! bucket_key ip clientId with
    | Some _ => totalClients (getStats t s)
    | None => S (totalClients (getStats t s))
    end
  ∧ (totalClients (getStats t (cleanupExpired now s)) ≤ totalClients (getStats t s))%nat
  ∧ totalClients (getStats t (setClientPolicy id policy s)) = totalClients (getStats t s).
Proof.
  split_and!.
  - rewrite allow_unfold. cbn [snd getStats totalClients buckets_].
    rewrite map_size_insert. by destruct (buckets_ s !! _).
  - unfold cleanupExpired. cbn [getStats totalClients buckets_ set_buckets].
    apply map_size_filter.
  - reflexivity.
Qed.

(** X10. [getStats().blockedClients] never exceeds [totalClients], and a
    block whose window has run out is not counted: when no bucket has
    [now < blockedUntil], no client is reported blocked, whatever the
    [isBlocked] flags say. *)
Theorem blockedClients_bounds (now : Chrono.time_point) (s : RateLimiter) :
  (blockedClients (getStats now s) ≤ totalClients (getStats now s))%nat
  ∧ ((∀ key B, buckets_ s !! key = Some B → blockedUntil B ≤ now) →
     blockedClients (getStats now s) = 0%nat).
Proof.
  unfold getStats. cbn [blockedClients totalClients]. split.
  - apply map_size_filter.
  - intros Hall. apply map_size_empty_iff, map_empty_filter.
    intros key B HB. cbn. specialize (Hall key B HB).
    destruct (Z.ltb_spec now (blockedUntil B)); [lia|].
    rewrite andb_false_r. done.
Qed.

(** X11. An override for one client id does not touch the calls of another:
    for a call with a different client id, installing the override before
    the call or after it gives the same decision and the same limiter. *)
Theorem override_leaves_other_clients
    (other : string) (policy : RateLimitPolicy)
    (now nowRefill : Chrono.time_point) (ip clientId : string) (s : RateLimiter) :
  clientId ≠ other →
  allow now nowRefill ip clientId (setClientPolicy other policy s)
  = (fst (allow now nowRefill ip clientId s),
     setClientPolicy other policy (snd (allow now nowRefill ip clientId s))).
Proof.
  intros Hne. rewrite !allow_unfold. cbn [fst snd].
  assert (He : effective_policy (setClientPolicy other policy s) clientId
               = effective_policy s clientId).
  { unfold effective_policy. cbn. by rewrite lookup_insert_ne. }
  rewrite He. reflexivity.
Qed.

Lemma override_leaves_other_clients_witness :
  allow Data.t0 Data.t0 "1.1.1.1" "c" (setClientPolicy "d" Data.P_small Data.after_one_allow)
  = (fst (allow Data.t0 Data.t0 "1.1.1.1" "c" Data.after_one_allow),
     setClientPolicy "d" Data.P_small (snd (allow Data.t0 Data.t0 "1.1.1.1" "c" Data.after_one_allow))).
Proof.
  apply (override_leaves_other_clients "d" Data.P_small Data.t0 Data.t0 "1.1.1.1" "c"
           Data.after_one_allow).
  congruence.
Defined.

(** * Further properties of the metrics sink and of the worker *)

Section PumpFacts.

Implicit Types (st : ThrottleBox) (info : ClientInfo) (step : PumpStep).

Local Arguments allow : simpl never.
Local Arguments incrementCounter : simpl never.

Lemma forwardTraffic_step info step steps st :
  forwardTraffic info (step :: steps) st
  = if fst (pump_one info step st) then forwardTraffic info steps (snd (pump_one info step st))
    else sys (SocketClose BrokerSocket) (snd (pump_one info step st)).
Proof.
  cbn [forwardTraffic]. unfold pump_one.
  destruct (negb (running step)); [done|].
  destruct (activity step <=? 0); [done|].
  destruct (client_ready step) as [cr|].
  - destruct (bytesRead (client_recv cr) <=? 0); [done|].
    destruct (allow _ _ _ _ _) as [[|] rl]; cbn [fst snd negb]; [|done].
    destruct (broker_sent cr =? _); [|done].
    by destruct (pumpBroker _ _).
  - by destruct (pumpBroker _ _).
Qed.

Lemma bump_succ_r n x : Sys.bump (S n) x = Sys.bump n (Num.uint64_incr x).
Proof. unfold Sys.bump. apply Nat.iter_succ_r. Qed.

Lemma bump_small n x :
  0 ≤ x → x + Z.of_nat n ≤ Num.UINT64_MAX → Sys.bump n x = x + Z.of_nat n.
Proof.
  revert x. induction n as [|n IH]; intros x Hx Hn.
  - cbn. lia.
  - rewrite bump_succ_r, uint64_incr_small by lia. rewrite IH; lia.
Qed.

Lemma counter_count_same name st :
  Sys.counter name (metrics_ (count name st)) = Num.uint64_incr (Sys.counter name (metrics_ st)).
Proof. unfold Sys.counter, count. cbn [metrics_]. by rewrite incrementCounter_same. Qed.

Lemma counter_count_other name other st :
  other ≠ name →
  Sys.counter other (metrics_ (count name st)) = Sys.counter other (metrics_ st).
Proof. intros H. unfold Sys.counter, count. cbn [metrics_]. by rewrite incrementCounter_other. Qed.

Lemma pumpBroker_shape b st st' :
  pumpBroker b st = Some st' →
  metrics_ st' = metrics_ st ∧ rateLimiter_ st' = rateLimiter_ st
  ∧ ∃ sends, syscalls st' = syscalls st ++ sends
             ∧ Forall (λ c, Sys.is_send c = true) sends
             ∧ Sys.sent_to BrokerSocket sends = [].
Proof.
  unfold pumpBroker. destruct b as [br|].
  - destruct (_ <=? _); [done|]. destruct (_ =? _); [|done]. intros [= <-].
    split_and!; [done|done|]. eexists [_]. cbn. split_and!; [done| |done].
    by repeat constructor.
  - intros [= <-]. split_and!; [done|done|]. exists []. by rewrite app_nil_r.
Qed.

(** What one iteration does: it appends send calls only, hands the broker at
    most the chunk it read from the client, and moves the limiter's counters
    and the metrics counters together. *)
Lemma pump_one_shape info step st :
  ∃ sends (a b : nat),
    syscalls (snd (pump_one info step st)) = syscalls st ++ sends
    ∧ Forall (λ c, Sys.is_send c = true) sends
    ∧ Sys.sent_to BrokerSocket sends `sublist_of` Sys.client_chunks [step]
    ∧ length (Sys.sent_to BrokerSocket sends) = a
    ∧ allowedMessages_ (rateLimiter_ (snd (pump_one info step st)))
      = Sys.bump a (allowedMessages_ (rateLimiter_ st))
    ∧ blockedMessages_ (rateLimiter_ (snd (pump_one info step st)))
      = Sys.bump b (blockedMessages_ (rateLimiter_ st))
    ∧ Sys.counter "allowed_messages" (metrics_ (snd (pump_one info step st)))
      = Sys.bump a (Sys.counter "allowed_messages" (metrics_ st))
    ∧ Sys.counter "blocked_messages" (metrics_ (snd (pump_one info step st)))
      = Sys.bump b (Sys.counter "blocked_messages" (metrics_ st)).
Proof.
  assert (Hstay : ∃ sends (a b : nat),
            syscalls st = syscalls st ++ sends
            ∧ Forall (λ c, Sys.is_send c = true) sends
            ∧ Sys.sent_to BrokerSocket sends `sublist_of` Sys.client_chunks [step]
            ∧ length (Sys.sent_to BrokerSocket sends) = a
            ∧ allowedMessages_ (rateLimiter_ st) = Sys.bump a (allowedMessages_ (rateLimiter_ st))
            ∧ blockedMessages_ (rateLimiter_ st) = Sys.bump b (blockedMessages_ (rateLimiter_ st))
            ∧ Sys.counter "allowed_messages" (metrics_ st)
              = Sys.bump a (Sys.counter "allowed_messages" (metrics_ st))
            ∧ Sys.counter "blocked_messages" (metrics_ st)
              = Sys.bump b (Sys.counter "blocked_messages" (metrics_ st))).
  { exists [], 0%nat, 0%nat. rewrite app_nil_r. split_and!; try done. apply sublist_nil_l. }
  unfold pump_one.
  destruct (negb (running step)); [exact Hstay|].
  destruct (activity step <=? 0); [exact Hstay|].
  destruct (client_ready step) as [cr|] eqn:Ecr.
  - destruct (bytesRead (client_recv cr) <=? 0); [exact Hstay|].
    pose proof (allow_counters_wrap (clock_check cr) (clock_refill cr) (ip info)
                  (clientId info) (rateLimiter_ st)) as Hc. cbv zeta in Hc.
    destruct (allow _ _ _ _ _) as [allowed rl]. cbn [fst snd] in *.
    destruct Hc as [(-> & Ha & Hb) | (-> & Hb & Ha)]; cbn [negb].
    + (* allowed: counted, then sent to the broker *)
      assert (Hchunk : Sys.client_chunks [step] = [buffer (client_recv cr)])
        by (unfold Sys.client_chunks; cbn; by rewrite Ecr).
      set (st2 := sys _ (count "allowed_messages" _)).
      assert (H2 : ∃ sends, syscalls st2 = syscalls st ++ sends
                ∧ sends = [SocketSend BrokerSocket (buffer (client_recv cr))]
                ∧ rateLimiter_ st2 = rl
                ∧ Sys.counter "allowed_messages" (metrics_ st2)
                  = Num.uint64_incr (Sys.counter "allowed_messages" (metrics_ st))
                ∧ Sys.counter "blocked_messages" (metrics_ st2)
                  = Sys.counter "blocked_messages" (metrics_ st)).
      { eexists. split_and!; [reflexivity|reflexivity|reflexivity| |].
        - subst st2. cbn [sys metrics_]. by rewrite counter_count_same.
        - subst st2. cbn [sys metrics_]. by rewrite counter_count_other. }
      destruct H2 as (sends2 & Hs2 & -> & Hrl2 & Hma & Hmb).
      assert (Hbreak : ∃ sends (a b : nat),
                syscalls st2 = syscalls st ++ sends
                ∧ Forall (λ c, Sys.is_send c = true) sends
                ∧ Sys.sent_to BrokerSocket sends `sublist_of` Sys.client_chunks [step]
                ∧ length (Sys.sent_to BrokerSocket sends) = a
                ∧ allowedMessages_ (rateLimiter_ st2) = Sys.bump a (allowedMessages_ (rateLimiter_ st))
                ∧ blockedMessages_ (rateLimiter_ st2) = Sys.bump b (blockedMessages_ (rateLimiter_ st))
                ∧ Sys.counter "allowed_messages" (metrics_ st2)
                  = Sys.bump a (Sys.counter "allowed_messages" (metrics_ st))
                ∧ Sys.counter "blocked_messages" (metrics_ st2)
                  = Sys.bump b (Sys.counter "blocked_messages" (metrics_ st))).
      { exists [SocketSend BrokerSocket (buffer (client_recv cr))], 1%nat, 0%nat.
        rewrite Hrl2, Hchunk. split_and!; try done. by repeat constructor. }
      destruct (broker_sent cr =? _); [|exact Hbreak].
      destruct (pumpBroker _ _) as [st'|] eqn:Ep; cbn [snd]; [|exact Hbreak].
      apply pumpBroker_shape in Ep as (Hm & Hr & sends3 & Hs3 & Hf3 & Hn3).
      exists ([SocketSend BrokerSocket (buffer (client_recv cr))] ++ sends3), 1%nat, 0%nat.
      rewrite Hm, Hr, Hrl2, Hs3, Hs2, Hchunk, <- app_assoc.
      split_and!; try done.
      * apply Forall_app. split; [by repeat constructor | done].
      * cbn. by rewrite Hn3.
      * cbn. by rewrite Hn3.
    + (* denied: counted and dropped *)
      exists [], 0%nat, 1%nat. cbn [snd count sys syscalls rateLimiter_ metrics_].
      rewrite app_nil_r. split_and!; try done.
      * apply sublist_nil_l.
      * change (Sys.counter "allowed_messages"
                  (metrics_ (count "blocked_messages"
                     {| rateLimiter_ := rl; metrics_ := metrics_ st; syscalls := syscalls st |}))
                = Sys.counter "allowed_messages" (metrics_ st)).
        by rewrite counter_count_other.
      * change (Sys.counter "blocked_messages"
                  (metrics_ (count "blocked_messages"
                     {| rateLimiter_ := rl; metrics_ := metrics_ st; syscalls := syscalls st |}))
                = Num.uint64_incr (Sys.counter "blocked_messages" (metrics_ st))).
        by rewrite counter_count_same.
  - destruct (pumpBroker _ _) as [st'|] eqn:Ep; cbn [snd]; [|exact Hstay].
    apply pumpBroker_shape in Ep as (Hm & Hr & sends3 & Hs3 & Hf3 & Hn3).
    exists sends3, 0%nat, 0%nat. rewrite Hm, Hr, Hs3, Hn3.
    split_and!; try done. apply sublist_nil_l.
Qed.

End PumpFacts.

Section LoopFacts.

Implicit Types (st : ThrottleBox) (info : ClientInfo) (steps : list PumpStep).

Lemma bump_add a n x : Sys.bump (a + n) x = Sys.bump n (Sys.bump a x).
Proof. unfold Sys.bump. rewrite Nat.add_comm. apply Nat.iter_add. Qed.

Lemma sent_to_app s l1 l2 : Sys.sent_to s (l1 ++ l2) = Sys.sent_to s l1 ++ Sys.sent_to s l2.
Proof.
  induction l1 as [|c l1 IH]; [done|].
  destruct c as [s'|s'|[] data], s; cbn; by rewrite ?IH.
Qed.

Lemma client_chunks_cons step steps :
  Sys.client_chunks (step :: steps) = Sys.client_chunks [step] ++ Sys.client_chunks steps.
Proof. unfold Sys.client_chunks. cbn. by destruct (client_ready step). Qed.

(** The whole loop: send calls, then the close of the broker socket. *)
Lemma forwardTraffic_shape info steps st :
  ∃ sends (a b : nat),
    syscalls (forwardTraffic info steps st)
    = syscalls st ++ sends ++ [SocketClose BrokerSocket]
    ∧ Forall (λ c, Sys.is_send c = true) sends
    ∧ Sys.sent_to BrokerSocket sends `sublist_of` Sys.client_chunks steps
    ∧ length (Sys.sent_to BrokerSocket sends) = a
    ∧ allowedMessages_ (rateLimiter_ (forwardTraffic info steps st))
      = Sys.bump a (allowedMessages_ (rateLimiter_ st))
    ∧ blockedMessages_ (rateLimiter_ (forwardTraffic info steps st))
      = Sys.bump b (blockedMessages_ (rateLimiter_ st))
    ∧ Sys.counter "allowed_messages" (metrics_ (forwardTraffic info steps st))
      = Sys.bump a (Sys.counter "allowed_messages" (metrics_ st))
    ∧ Sys.counter "blocked_messages" (metrics_ (forwardTraffic info steps st))
      = Sys.bump b (Sys.counter "blocked_messages" (metrics_ st)).
Proof.
  revert st. induction steps as [|step steps IH]; intros st.
  - exists [], 0%nat, 0%nat. cbn. split_and!; done.
  - rewrite forwardTraffic_step.
    destruct (pump_one_shape info step st)
      as (s1 & a1 & b1 & Hs1 & Hf1 & Hsub1 & Hl1 & Ha1 & Hb1 & Hma1 & Hmb1).
    destruct (fst (pump_one info step st)).
    + destruct (IH (snd (pump_one info step st)))
        as (s2 & a2 & b2 & Hs2 & Hf2 & Hsub2 & Hl2 & Ha2 & Hb2 & Hma2 & Hmb2).
      exists (s1 ++ s2), (a1 + a2)%nat, (b1 + b2)%nat.
      rewrite Hs2, Hs1, Ha2, Ha1, Hb2, Hb1, Hma2, Hma1, Hmb2, Hmb1, !bump_add.
      rewrite sent_to_app, client_chunks_cons, length_app, Hl1, Hl2, <- !app_assoc.
      split_and!; try done.
      * by apply Forall_app.
      * by apply sublist_app.
    + exists s1, a1, b1. cbn [sys syscalls rateLimiter_ metrics_].
      rewrite Hs1, <- app_assoc, client_chunks_cons.
      split_and!; try done. by apply sublist_inserts_r.
Qed.

Lemma count_if_app f l1 l2 :
  Sys.count_if f (l1 ++ l2) = (Sys.count_if f l1 + Sys.count_if f l2)%nat.
Proof. induction l1 as [|c l1 IH]; cbn; [done|]. rewrite IH. lia. Qed.

Lemma count_if_sends f sends :
  (∀ c, Sys.is_send c = true → f c = false) →
  Forall (λ c, Sys.is_send c = true) sends → Sys.count_if f sends = 0%nat.
Proof.
  intros Hf Hall. induction Hall as [|c l Hc _ IH]; cbn; [done|].
  by rewrite (Hf c Hc), IH.
Qed.

End LoopFacts.

(** X12. The pump loop hands the broker client data only: the buffers it
    passes to [send] on the broker socket are, in order, chunks it read from
    the client (some chunks may be missing, none is altered, repeated or
    moved).  Of the calls [socket], [send] and [close], which are the ones
    logged, the loop adds [send] calls only, followed by exactly one [close]
    of the broker socket: it creates no socket and does not close the client
    socket.  (Its [select] and [recv] calls are the inputs of the model, not
    part of the log.) *)
Theorem forwardTraffic_forwards_client_chunks_in_order
    (info : ClientInfo) (steps : list PumpStep) (st : ThrottleBox) :
  ∃ sends,
    syscalls (forwardTraffic info steps st)
    = syscalls st ++ sends ++ [SocketClose BrokerSocket]
    ∧ Forall (λ c, Sys.is_send c = true) sends
    ∧ Sys.sent_to BrokerSocket sends `sublist_of` Sys.client_chunks steps.
Proof.
  destruct (forwardTraffic_shape info steps st) as (sends & a & b & Hs & Hf & Hsub & _).
  by exists sends.
Qed.

(** X13. The pump loop keeps its three counts in step: the number of [send]
    calls it issues on the broker socket (counted when issued, whether or not
    the call then writes the whole chunk), the increments of the limiter's
    [allowedMessages_] and the increments of the metrics counter
    [allowed_messages] are one and the same number, and so are the increments
    of [blockedMessages_] and of [blocked_messages] (all increments being [++]
    on [uint64_t]). *)
Theorem forwardTraffic_counts_agree
    (info : ClientInfo) (steps : list PumpStep) (st : ThrottleBox) :
  ∃ (sends : list SysCall) (a b : nat),
    syscalls (forwardTraffic info steps st)
    = syscalls st ++ sends ++ [SocketClose BrokerSocket]
    ∧ length (Sys.sent_to BrokerSocket sends) = a
    ∧ allowedMessages_ (rateLimiter_ (forwardTraffic info steps st))
      = Sys.bump a (allowedMessages_ (rateLimiter_ st))
    ∧ Sys.counter "allowed_messages" (metrics_ (forwardTraffic info steps st))
      = Sys.bump a (Sys.counter "allowed_messages" (metrics_ st))
    ∧ blockedMessages_ (rateLimiter_ (forwardTraffic info steps st))
      = Sys.bump b (blockedMessages_ (rateLimiter_ st))
    ∧ Sys.counter "blocked_messages" (metrics_ (forwardTraffic info steps st))
      = Sys.bump b (Sys.counter "blocked_messages" (metrics_ st)).
Proof.
  destruct (forwardTraffic_shape info steps st)
    as (sends & a & b & Hs & _ & _ & Hl & Ha & Hb & Hma & Hmb).
  by exists sends, a, b.
Qed.

(** X14. Socket discipline of a worker, whatever its environment does: the
    client socket is closed exactly once and that close is the worker's last
    system call; a broker socket is created at most once and closed as often
    as it is created; and data is written only by a worker that peeked at
    least 10 bytes and reached the broker. *)
Theorem handleClient_socket_discipline
    (char_is_signed : bool) (env : ConnEnv) (st : ThrottleBox) :
  ∃ calls,
    syscalls (handleClient char_is_signed env st) = syscalls st ++ calls
    ∧ Sys.count_if (Sys.is_close ClientSocket) calls = 1%nat
    ∧ last calls = Some (SocketClose ClientSocket)
    ∧ (Sys.count_if (Sys.is_create BrokerSocket) calls ≤ 1)%nat
    ∧ Sys.count_if (Sys.is_close BrokerSocket) calls
      = Sys.count_if (Sys.is_create BrokerSocket) calls
    ∧ Sys.count_if (Sys.is_create ClientSocket) calls = 0%nat
    ∧ ((0 < Sys.count_if Sys.is_send calls)%nat →
       10 ≤ bytesRead (peeked env) ∧ broker env = BrokerConnected).
Proof.
  unfold handleClient.
  destruct (Z.lt_ge_cases (bytesRead (peeked env)) 10) as [Hshort|Hlong].
  - pose proof (extractClientInfo_short char_is_signed (peer env) (peeked env)
                  (mkClientInfo "" "") Hshort) as E.
    destruct (extractClientInfo _ _ _ _) as [ok info]. cbn in E. subst ok. cbn [negb].
    exists [SocketClose ClientSocket]. cbn. split_and!; try done; lia.
  - pose proof (extractClientInfo_enough char_is_signed (peer env) (peeked env)
                  (mkClientInfo "" "") Hlong) as E.
    destruct (extractClientInfo _ _ _ _) as [ok info]. cbn in E. subst ok. cbn [negb].
    destruct (broker env) eqn:Eb; cbn [connectToBroker negb].
    + exists [SocketClose ClientSocket]. cbn. split_and!; try done; lia.
    + exists [SocketCreate BrokerSocket; SocketClose BrokerSocket; SocketClose ClientSocket].
      cbn. rewrite <- !app_assoc. cbn. split_and!; try done; lia.
    + destruct (forwardTraffic_shape info (pump env) (sys (SocketCreate BrokerSocket) st))
        as (sends & a & b & Hs & Hf & _).
      exists ([SocketCreate BrokerSocket] ++ sends
              ++ [SocketClose BrokerSocket; SocketClose ClientSocket]).
      cbn [count sys syscalls]. rewrite Hs. cbn [sys syscalls].
      rewrite <- !app_assoc. cbn [app].
      assert (H1 : Sys.count_if (Sys.is_close ClientSocket) sends = 0%nat)
        by (apply count_if_sends; [by intros [] | done]).
      assert (H2 : Sys.count_if (Sys.is_create BrokerSocket) sends = 0%nat)
        by (apply count_if_sends; [by intros [] | done]).
      assert (H3 : Sys.count_if (Sys.is_close BrokerSocket) sends = 0%nat)
        by (apply count_if_sends; [by intros [] | done]).
      assert (H4 : Sys.count_if (Sys.is_create ClientSocket) sends = 0%nat)
        by (apply count_if_sends; [by intros [] | done]).
      split_and!.
      * done.
      * cbn. rewrite count_if_app, H1. done.
      * replace (SocketCreate BrokerSocket :: sends ++ [SocketClose BrokerSocket; SocketClose ClientSocket])
          with ((SocketCreate BrokerSocket :: sends ++ [SocketClose BrokerSocket])
                ++ [SocketClose ClientSocket])
          by (cbn; f_equal; by rewrite <- app_assoc).
        apply last_snoc.
      * cbn. rewrite count_if_app, H2. cbn. lia.
      * cbn. rewrite !count_if_app, H2, H3. done.
      * cbn. rewrite count_if_app, H4. done.
      * done.
Qed.

(** X15. Traffic of the broker is never rate limited or counted: a pump loop
    that reads no client data leaves the rate limiter and the metrics exactly
    as they were. *)
Theorem forwardTraffic_without_client_data
    (info : ClientInfo) (steps : list PumpStep) (st : ThrottleBox) :
  Forall (λ step, client_ready step = None) steps →
  rateLimiter_ (forwardTraffic info steps st) = rateLimiter_ st
  ∧ metrics_ (forwardTraffic info steps st) = metrics_ st.
Proof.
  intros Hall. revert st. induction Hall as [|step steps Hnone _ IH]; intros st; [done|].
  rewrite forwardTraffic_step. unfold pump_one. rewrite Hnone.
  destruct (negb (running step)); [done|].
  destruct (activity step <=? 0); cbn [fst snd]; [apply IH|].
  destruct (pumpBroker _ _) as [st'|] eqn:Ep; cbn [fst snd]; [|done].
  apply pumpBroker_metrics in Ep as [Hm Hr].
  destruct (IH st') as [-> ->]. done.
Qed.

Lemma forwardTraffic_without_client_data_witness :
  rateLimiter_ (forwardTraffic (mkClientInfo "10.0.0.7" "c") Data.broker_only Data.box0)
  = rateLimiter_ Data.box0
  ∧ metrics_ (forwardTraffic (mkClientInfo "10.0.0.7" "c") Data.broker_only Data.box0)
    = metrics_ Data.box0.
Proof.
  apply (forwardTraffic_without_client_data (mkClientInfo "10.0.0.7" "c")
           Data.broker_only Data.box0).
  repeat constructor.
Defined.

(** X16. A worker that peeked enough but cannot reach the broker gives up
    without a trace in the counters: the metrics (so also
    [client_disconnects]) and the rate limiter are as before, and nothing is
    written to the broker. *)
Theorem handleClient_broker_failure
    (char_is_signed : bool) (env : ConnEnv) (st : ThrottleBox) :
  10 ≤ bytesRead (peeked env) →
  broker env ≠ BrokerConnected →
  metrics_ (handleClient char_is_signed env st) = metrics_ st
  ∧ rateLimiter_ (handleClient char_is_signed env st) = rateLimiter_ st
  ∧ Sys.sent_to BrokerSocket (syscalls (handleClient char_is_signed env st))
    = Sys.sent_to BrokerSocket (syscalls st).
Proof.
  intros Hlong Hb. unfold handleClient.
  pose proof (extractClientInfo_enough char_is_signed (peer env) (peeked env)
                (mkClientInfo "" "") Hlong) as E.
  destruct (extractClientInfo _ _ _ _) as [ok info]. cbn in E. subst ok. cbn [negb].
  destruct (broker env); [| |done]; cbn; rewrite ?sent_to_app; cbn;
    by rewrite ?app_nil_r.
Qed.

Lemma handleClient_broker_failure_witness :
  metrics_ (handleClient true Data.env_no_broker Data.box0) = metrics_ Data.box0
  ∧ rateLimiter_ (handleClient true Data.env_no_broker Data.box0) = rateLimiter_ Data.box0
  ∧ Sys.sent_to BrokerSocket (syscalls (handleClient true Data.env_no_broker Data.box0))
    = Sys.sent_to BrokerSocket (syscalls Data.box0).
Proof.
  apply (handleClient_broker_failure true Data.env_no_broker Data.box0).
  - vm_compute. congruence.
  - vm_compute. congruence.
Defined.

Section ParseFacts.

Variable char_is_signed : bool.

Lemma eqb_empty_false (x : string) : String.eqb x "" = false ↔ x ≠ "".
Proof.
  destruct (String.eqb_spec x ""); split; intros; congruence.
Qed.

Lemma char_to_int_16 (b : byte) : (char_to_int char_is_signed b =? 16) = Byte.eqb b x10.
Proof. destruct char_is_signed; destruct b; reflexivity. Qed.

Lemma val_byte_of (n : Z) : 0 ≤ n < 256 → Bytes.val (Packet.byte_of n) = n.
Proof.
  intros Hn. unfold Bytes.val, Packet.byte_of.
  destruct (Byte.of_N (Z.to_N n)) as [b|] eqn:E.
  - apply Byte.to_of_N in E. cbn. rewrite E. lia.
  - apply Byte.of_N_None_iff in E. lia.
Qed.

(** A length below 128 in the low byte is read back on both kinds of
    platform. *)
Lemma clientIdLen_small (n : Z) :
  0 ≤ n < 128 → clientIdLen char_is_signed x00 (Packet.byte_of n) = n.
Proof.
  intros Hn.
  destruct (clientIdLen_closed_form x00 (Packet.byte_of n)) as [Hu Hs].
  destruct (be16_range x00 (Packet.byte_of n)) as [Hbe _].
  assert (Hv : Bytes.val (Packet.byte_of n) = n) by (apply val_byte_of; lia).
  rewrite Hv in Hs, Hbe. change (Bytes.val x00) with 0 in Hbe.
  destruct char_is_signed.
  - rewrite Hs. destruct (Z.ltb_spec n 128); lia.
  - lia.
Qed.

Lemma length_list_byte_of_string (x : string) :
  length (String.list_byte_of_string x) = String.length x.
Proof.
  unfold String.list_byte_of_string. rewrite length_map.
  induction x as [|c x IH]; cbn; [done | by rewrite IH].
Qed.

Lemma layout_at (head : list byte) (hi lo : byte) (id rest : list byte) :
  length head = 10%nat →
  at_ (Packet.layout head hi lo id rest) 0 = at_ head 0
  ∧ at_ (Packet.layout head hi lo id rest) 10 = hi
  ∧ at_ (Packet.layout head hi lo id rest) 11 = lo
  ∧ string_at (Packet.layout head hi lo id rest) 12 (Z.of_nat (length id))
    = String.string_of_list_byte id
  ∧ bytesRead (RecvBytes (Packet.layout head hi lo id rest))
    = 12 + Z.of_nat (length id) + Z.of_nat (length rest).
Proof.
  intros Hh. do 11 (destruct head as [|? head]; try done). clear Hh.
  unfold Packet.layout, at_, string_at. cbn [bytesRead app length nth Z.to_nat Pos.to_nat Pos.iter_op Nat.add].
  split_and!; try done.
  - change (Z.to_nat 12) with 12%nat. cbn [drop]. rewrite Nat2Z.id.
    by rewrite drop_0, take_app_length.
  - rewrite length_app. lia.
Qed.

End ParseFacts.

(** X17. A worker that gets past the peek always has a name for its client:
    [extractClientInfo] succeeds exactly when at least 10 bytes were peeked,
    and then the Client-ID it hands on is never empty, so the limiter's key is
    that Client-ID and the IP fallback of [allow] is never taken by the
    proxy; the address is the peer's, or "unknown". *)
Theorem extractClientInfo_names_every_client
    (char_is_signed : bool) (peer : option string) (r : RecvResult) (info : ClientInfo) :
  let out := extractClientInfo char_is_signed peer r info in
  (fst out = true ↔ 10 ≤ bytesRead r)
  ∧ ip (snd out) = default "unknown" peer
  ∧ (fst out = true →
     clientId (snd out) ≠ ""
     ∧ bucket_key (ip (snd out)) (clientId (snd out)) = clientId (snd out)).
Proof.
  cbv zeta. unfold extractClientInfo.
  destruct (Z.ltb_spec (bytesRead r) 10) as [Hs|Hl]; cbn [fst snd ip clientId].
  - split_and!; [split; [done|lia] | done | done].
  - split_and!; [done| |].
    + by destruct (String.eqb _ "").
    + intros _. destruct (String.eqb (parseClientId _ _ _) "") eqn:E; cbn [clientId ip].
      * done.
      * split; [by apply eqb_empty_false|]. unfold bucket_key. by rewrite E.
Qed.

(** X18. Reading back a Client-ID: from a peek that starts with 0x10, carries
    at offset 10 the two-byte length of a Client-ID of 1 to 127 bytes and the
    Client-ID itself from offset 12, and holds at least one more byte after
    it, [extractClientInfo] returns exactly that Client-ID, with signed and
    with unsigned [char]. *)
Theorem extractClientInfo_reads_back
    (char_is_signed : bool) (peer : option string)
    (head : list byte) (id : string) (rest : list byte) :
  length head = 10%nat →
  at_ head 0 = x10 →
  (0 < String.length id < 128)%nat →
  rest ≠ [] →
  extractClientInfo char_is_signed peer
    (RecvBytes (Packet.layout head x00 (Packet.byte_of (Z.of_nat (String.length id)))
                  (String.list_byte_of_string id) rest))
    (mkClientInfo "" "")
  = (true, {| ip := default "unknown" peer; clientId := id |}).
Proof.
  intros Hh H0 Hid Hrest.
  set (lo := Packet.byte_of (Z.of_nat (String.length id))).
  set (bytes := String.list_byte_of_string id).
  destruct (layout_at head x00 lo bytes rest Hh) as (A0 & A10 & A11 & Aid & Alen).
  assert (Hlen : length bytes = String.length id) by apply length_list_byte_of_string.
  assert (Hr : (0 < length rest)%nat) by (destruct rest; [done | cbn; lia]).
  assert (Hp : parseClientId char_is_signed (RecvBytes (Packet.layout head x00 lo bytes rest)) ""
               = id).
  { rewrite parseClientId_offset_10. cbv zeta. cbn [buffer].
    rewrite A0, A10, A11, H0, char_to_int_16. subst lo.
    rewrite clientIdLen_small by lia. rewrite Alen, Hlen.
    change (Byte.eqb x10 x10) with true. cbn [andb].
    destruct (Z.ltb_spec 12 (12 + Z.of_nat (String.length id) + Z.of_nat (length rest))); [|lia].
    destruct (Z.ltb_spec (12 + Z.of_nat (String.length id))
                (12 + Z.of_nat (String.length id) + Z.of_nat (length rest))); [|lia].
    cbn [andb]. rewrite Hlen in Aid. rewrite Aid.
    apply String.string_of_list_byte_of_string. }
  unfold extractClientInfo. cbn [clientId ip].
  destruct (Z.ltb_spec (bytesRead (RecvBytes (Packet.layout head x00 lo bytes rest))) 10);
    [rewrite Alen in *; lia|].
  rewrite Hp.
  assert (String.eqb id "" = false) as -> by (destruct id; [cbn in Hid; lia | done]).
  done.
Qed.

Lemma extractClientInfo_reads_back_witness :
  extractClientInfo true (Some "10.0.0.7")
    (RecvBytes (Packet.layout Data.connect_head x00
                  (Packet.byte_of (Z.of_nat (String.length "sensor-1")))
                  (String.list_byte_of_string "sensor-1") [x30]))
    (mkClientInfo "" "")
  = (true, {| ip := default "unknown" (Some "10.0.0.7"); clientId := "sensor-1" |}).
Proof.
  apply (extractClientInfo_reads_back true (Some "10.0.0.7") Data.connect_head
           "sensor-1" [x30]).
  - reflexivity.
  - reflexivity.
  - vm_compute. lia.
  - congruence.
Defined.

(** X19. A Client-ID that ends exactly where the peeked bytes end is not
    read: the bounds check is strict, so the same peek without a byte after
    the Client-ID yields the anonymous name. *)
Theorem extractClientInfo_exact_fit_is_anonymous
    (char_is_signed : bool) (peer : option string) (head : list byte) (id : string) :
  length head = 10%nat →
  (String.length id < 128)%nat →
  extractClientInfo char_is_signed peer
    (RecvBytes (Packet.layout head x00 (Packet.byte_of (Z.of_nat (String.length id)))
                  (String.list_byte_of_string id) []))
    (mkClientInfo "" "")
  = (true, {| ip := default "unknown" peer;
              clientId := "anonymous_" +:+ default "unknown" peer |}).
Proof.
  intros Hh Hid.
  set (lo := Packet.byte_of (Z.of_nat (String.length id))).
  set (bytes := String.list_byte_of_string id).
  destruct (layout_at head x00 lo bytes [] Hh) as (A0 & A10 & A11 & Aid & Alen).
  assert (Hlen : length bytes = String.length id) by apply length_list_byte_of_string.
  apply extractClientInfo_anonymous; [rewrite Alen; lia|].
  rewrite parseClientId_offset_10. cbv zeta. cbn [buffer].
  rewrite A10, A11. subst lo. rewrite clientIdLen_small by lia. rewrite Alen, Hlen.
  cbn [length]. rewrite Z.add_0_r.
  rewrite (Z.ltb_irrefl (12 + Z.of_nat (String.length id))).
  by rewrite andb_false_r.
Qed.

Lemma extractClientInfo_exact_fit_is_anonymous_witness :
  extractClientInfo true (Some "10.0.0.7")
    (RecvBytes (Packet.layout Data.connect_head x00
                  (Packet.byte_of (Z.of_nat (String.length "sensor-1")))
                  (String.list_byte_of_string "sensor-1") []))
    (mkClientInfo "" "")
  = (true, {| ip := default "unknown" (Some "10.0.0.7");
              clientId := "anonymous_" +:+ default "unknown" (Some "10.0.0.7") |}).
Proof.
  apply (extractClientInfo_exact_fit_is_anonymous true (Some "10.0.0.7") Data.connect_head
           "sensor-1").
  - reflexivity.
  - vm_compute. lia.
Defined.

(** X20. Peeks the parser does not look into: when the first byte is not
    0x10, or when at most 12 bytes were peeked, the client is named
    ["anonymous_" + ip] whatever the bytes are. *)
Theorem extractClientInfo_unrecognised_is_anonymous
    (char_is_signed : bool) (peer : option string) (r : RecvResult) :
  10 ≤ bytesRead r →
  at_ (buffer r) 0 ≠ x10 ∨ bytesRead r ≤ 12 →
  extractClientInfo char_is_signed peer r (mkClientInfo "" "")
  = (true, {| ip := default "unknown" peer;
              clientId := "anonymous_" +:+ default "unknown" peer |}).
Proof.
  intros Hn Hcase. apply extractClientInfo_anonymous; [done|].
  rewrite parseClientId_offset_10. cbv zeta. rewrite char_to_int_16.
  destruct Hcase as [Hb|Hs].
  - destruct (Byte.eqb _ x10) eqn:E; [|done]. by apply Byte.byte_dec_bl in E.
  - destruct (Z.ltb_spec 12 (bytesRead r)); [lia|]. by rewrite andb_false_r.
Qed.

Lemma extractClientInfo_unrecognised_is_anonymous_witness :
  extractClientInfo true (Some "10.0.0.7") (RecvBytes Data.not_connect) (mkClientInfo "" "")
  = (true, {| ip := default "unknown" (Some "10.0.0.7");
              clientId := "anonymous_" +:+ default "unknown" (Some "10.0.0.7") |}).
Proof.
  apply (extractClientInfo_unrecognised_is_anonymous true (Some "10.0.0.7")
           (RecvBytes Data.not_connect)).
  - vm_compute. congruence.
  - left. vm_compute. congruence.
Defined.

Section MetricsFacts.

Lemma incrementCounter_gauges name m : gauges_ (incrementCounter name m) = gauges_ m.
Proof. done. Qed.

Lemma counter_incrementCounter name m :
  Sys.counter name (incrementCounter name m) = Num.uint64_incr (Sys.counter name m).
Proof. unfold Sys.counter. by rewrite incrementCounter_same. Qed.

End MetricsFacts.

(** X21. [incrementCounter] called [n] times on one name: that counter has
    been incremented [n] times as a [uint64_t] (so it is the old value plus
    [n] as long as that does not pass 2^64 - 1, and a counter that did not
    exist counts from 0), it exists afterwards when [n] is not 0, and no other
    counter and no gauge has changed. *)
Theorem incrementCounter_n_times (name : string) (n : nat) (m : Metrics) :
  let m' := Nat.iter n (incrementCounter name) m in
  Sys.counter name m' = Sys.bump n (Sys.counter name m)
  ∧ (0 ≤ Sys.counter name m → Sys.counter name m + Z.of_nat n ≤ Num.UINT64_MAX →
     Sys.counter name m' = Sys.counter name m + Z.of_nat n)
  ∧ (n ≠ 0%nat → is_Some (counters_ m' !! name))
  ∧ (∀ other, other ≠ name → counters_ m' !! other = counters_ m !! other)
  ∧ gauges_ m' = gauges_ m.
Proof.
  cbv zeta.
  assert (Hc : ∀ k, Sys.counter name (Nat.iter k (incrementCounter name) m)
                    = Sys.bump k (Sys.counter name m)).
  { induction k as [|k IH]; [done|].
    rewrite Nat.iter_succ, counter_incrementCounter, IH. done. }
  split_and!.
  - apply Hc.
  - intros H0 Hn. rewrite Hc. by apply bump_small.
  - destruct n as [|n]; [done|]. intros _. rewrite Nat.iter_succ.
    unfold incrementCounter at 1. cbn [counters_]. rewrite lookup_insert_eq. by eexists.
  - intros other Hne. induction n as [|n IH]; [done|].
    rewrite Nat.iter_succ, incrementCounter_other by done. exact IH.
  - induction n as [|n IH]; [done|]. by rewrite Nat.iter_succ, incrementCounter_gauges.
Qed.

Section ConfigFacts.

Lemma set_error_fields msg c :
  Cfg.globalPolicy_ (Cfg.set_error msg c) = Cfg.globalPolicy_ c
  ∧ Cfg.clientPolicies_ (Cfg.set_error msg c) = Cfg.clientPolicies_ c
  ∧ Cfg.proxySettings_ (Cfg.set_error msg c) = Cfg.proxySettings_ c
  ∧ Cfg.valid_ (Cfg.set_error msg c) = Cfg.valid_ c.
Proof. done. Qed.

(** What the checks of [validateConfig] amount to. *)
Lemma validateConfig_true (c : Cfg.Config) :
  fst (Cfg.validateConfig c) = true ↔
    PrimFloat.leb (maxMessagesPerSec (Cfg.globalPolicy_ c)) 0 = false
    ∧ 1 ≤ burstSize (Cfg.globalPolicy_ c)
    ∧ 0 ≤ blockDurationSec (Cfg.globalPolicy_ c)
    ∧ 1 ≤ Cfg.listenPort (Cfg.proxySettings_ c) ≤ 65535
    ∧ 1 ≤ Cfg.brokerPort (Cfg.proxySettings_ c) ≤ 65535
    ∧ Cfg.brokerHost (Cfg.proxySettings_ c) ≠ "".
Proof.
  unfold Cfg.validateConfig.
  destruct (PrimFloat.leb _ 0); cbn [fst]; [split; [done | intros [? _]; done]|].
  destruct (Z.leb_spec (burstSize (Cfg.globalPolicy_ c)) 0); cbn [fst];
    [split; [done | intros (_ & ? & _); lia]|].
  destruct (Z.ltb_spec (blockDurationSec (Cfg.globalPolicy_ c)) 0); cbn [fst];
    [split; [done | intros (_ & _ & ? & _); lia]|].
  destruct (Z.leb_spec (Cfg.listenPort (Cfg.proxySettings_ c)) 0); cbn [orb fst];
    [split; [done | intros (_ & _ & _ & ? & _); lia]|].
  destruct (Z.ltb_spec 65535 (Cfg.listenPort (Cfg.proxySettings_ c))); cbn [fst];
    [split; [done | intros (_ & _ & _ & ? & _); lia]|].
  destruct (Z.leb_spec (Cfg.brokerPort (Cfg.proxySettings_ c)) 0); cbn [orb fst];
    [split; [done | intros (_ & _ & _ & _ & ? & _); lia]|].
  destruct (Z.ltb_spec 65535 (Cfg.brokerPort (Cfg.proxySettings_ c))); cbn [fst];
    [split; [done | intros (_ & _ & _ & _ & ? & _); lia]|].
  destruct (String.eqb_spec (Cfg.brokerHost (Cfg.proxySettings_ c)) ""); cbn [fst];
    [split; [done | intros (_ & _ & _ & _ & _ & ?); done]|].
  split; [|done]. intros _. split_and!; try done; lia.
Qed.

End ConfigFacts.

(** X22. What [validateConfig] accepts: exactly the configurations whose
    global rate is above zero or is not a number, whose burst size is at
    least 1, whose block duration is not negative, whose two ports are in
    1..65535 and whose broker host is not empty. An accepted configuration is
    left as it is; a rejected one differs at most in its error text. *)
Theorem validateConfig_accepts_exactly (c : Cfg.Config) :
  (fst (Cfg.validateConfig c) = true ↔
     (PrimFloat.ltb 0 (maxMessagesPerSec (Cfg.globalPolicy_ c)) = true
      ∨ PrimFloat.is_nan (maxMessagesPerSec (Cfg.globalPolicy_ c)) = true)
     ∧ 1 ≤ burstSize (Cfg.globalPolicy_ c)
     ∧ 0 ≤ blockDurationSec (Cfg.globalPolicy_ c)
     ∧ 1 ≤ Cfg.listenPort (Cfg.proxySettings_ c) ≤ 65535
     ∧ 1 ≤ Cfg.brokerPort (Cfg.proxySettings_ c) ≤ 65535
     ∧ Cfg.brokerHost (Cfg.proxySettings_ c) ≠ "")
  ∧ (fst (Cfg.validateConfig c) = true → snd (Cfg.validateConfig c) = c)
  ∧ (fst (Cfg.validateConfig c) = false →
     Cfg.lastError_ (snd (Cfg.validateConfig c)) ≠ "")
  ∧ Cfg.globalPolicy_ (snd (Cfg.validateConfig c)) = Cfg.globalPolicy_ c
  ∧ Cfg.clientPolicies_ (snd (Cfg.validateConfig c)) = Cfg.clientPolicies_ c
  ∧ Cfg.proxySettings_ (snd (Cfg.validateConfig c)) = Cfg.proxySettings_ c
  ∧ Cfg.valid_ (snd (Cfg.validateConfig c)) = Cfg.valid_ c.
Proof.
  split; [rewrite validateConfig_true, leb_zero_false; done|].
  unfold Cfg.validateConfig.
  repeat (match goal with |- context [if ?b then _ else _] => destruct b end;
          cbn [fst snd]; [by split_and! |]).
  by split_and!.
Qed.

(** Calls for other keys leave the bucket of a key alone. *)
Lemma run_calls_buckets_other (calls : list AllowCall) (s : RateLimiter) (key : string) :
  Forall (λ c, bucket_key (call_ip c) (call_clientId c) ≠ key) calls →
  buckets_ (snd (run_calls calls s)) !! key = buckets_ s !! key.
Proof.
  intros Hall. revert s.
  induction Hall as [|c calls Hc _ IH]; intros s; cbn [run_calls snd]; [done|].
  rewrite IH. unfold allow_call. by apply allow_buckets_other.
Qed.

(** X23. Under a configuration that passes [validateConfig], the first
    message under a key is never refused: on the limiter the proxy builds
    from the global limits, after any run of calls none of which was for that
    key, the call of [allow] for the key is allowed, whatever the clock
    values are ([burstSize] is an [int], so below 2^31).  The statement is
    per key: clients that share a key, as anonymous clients of one address
    do, share its bucket, and only the first of their messages is meant. *)
Theorem valid_config_allows_first_message
    (c : Cfg.Config) (calls : list AllowCall)
    (now nowRefill : Chrono.time_point) (ip clientId : string) :
  fst (Cfg.validateConfig c) = true →
  burstSize (Cfg.globalPolicy_ c) < 2 ^ 31 →
  Forall (λ c', bucket_key (call_ip c') (call_clientId c') ≠ bucket_key ip clientId) calls →
  fst (allow now nowRefill ip clientId
         (snd (run_calls calls (rateLimiter_ (ThrottleBox_new (Cfg.globalPolicy_ c))))))
  = true.
Proof.
  intros Hv Hb Hall. apply validateConfig_true in Hv as (_ & H1 & _).
  destruct (run_calls_policies calls (rateLimiter_ (ThrottleBox_new (Cfg.globalPolicy_ c))))
    as [Hp Hd].
  apply allow_absent_key.
  - by rewrite run_calls_buckets_other.
  - unfold effective_policy. rewrite Hp, Hd. cbn. rewrite lookup_empty. lia.
Qed.

Lemma valid_config_allows_first_message_witness :
  fst (allow (Data.t0 + 1) (Data.t0 + 1) "10.0.0.7" "sensor-1"
         (snd (run_calls (calls_at "10.0.0.8" "sensor-2" Data.fast_times)
                 (rateLimiter_ (ThrottleBox_new (Cfg.globalPolicy_ Cfg.Config_default))))))
  = true.
Proof.
  apply (valid_config_allows_first_message Cfg.Config_default
           (calls_at "10.0.0.8" "sensor-2" Data.fast_times)
           (Data.t0 + 1) (Data.t0 + 1) "10.0.0.7" "sensor-1").
  - vm_compute. reflexivity.
  - vm_compute. reflexivity.
  - repeat constructor; vm_compute; congruence.
Defined.

Section IsolationFacts.

Local Arguments allow : simpl never.
Local Arguments incrementCounter : simpl never.

(** What one iteration of the pump may change in the limiter. *)
Lemma pump_one_limiter info step st :
  clientPolicies_ (rateLimiter_ (snd (pump_one info step st)))
  = clientPolicies_ (rateLimiter_ st)
  ∧ defaultPolicy_ (rateLimiter_ (snd (pump_one info step st)))
    = defaultPolicy_ (rateLimiter_ st)
  ∧ ∀ k, k ≠ bucket_key (ip info) (clientId info) →
      buckets_ (rateLimiter_ (snd (pump_one info step st))) !! k
      = buckets_ (rateLimiter_ st) !! k.
Proof.
  unfold pump_one.
  destruct (negb (running step)); [done|].
  destruct (activity step <=? 0); [done|].
  destruct (client_ready step) as [cr|].
  - destruct (bytesRead (client_recv cr) <=? 0); [done|]. cbv zeta.
    pose proof (allow_policies (clock_check cr) (clock_refill cr) (ip info) (clientId info)
                  (rateLimiter_ st)) as [Hp Hd].
    pose proof (λ k, allow_buckets_other (clock_check cr) (clock_refill cr) (ip info)
                  (clientId info) (rateLimiter_ st) k) as Hb.
    destruct (allow _ _ _ _ _) as [ok rl]. cbn [fst snd] in *.
    destruct ok; cbn [negb]; [|done].
    destruct (broker_sent cr =? _); [|done].
    destruct (pumpBroker _ _) as [st'|] eqn:Ep; cbn [snd]; [|done].
    apply pumpBroker_metrics in Ep as [_ ->]. done.
  - destruct (pumpBroker _ _) as [st'|] eqn:Ep; cbn [snd]; [|done].
    apply pumpBroker_metrics in Ep as [_ ->]. done.
Qed.

Lemma forwardTraffic_limiter info steps st :
  clientPolicies_ (rateLimiter_ (forwardTraffic info steps st))
  = clientPolicies_ (rateLimiter_ st)
  ∧ defaultPolicy_ (rateLimiter_ (forwardTraffic info steps st))
    = defaultPolicy_ (rateLimiter_ st)
  ∧ ∀ k, k ≠ bucket_key (ip info) (clientId info) →
      buckets_ (rateLimiter_ (forwardTraffic info steps st)) !! k
      = buckets_ (rateLimiter_ st) !! k.
Proof.
  revert st. induction steps as [|step steps IH]; intros st; [done|].
  rewrite forwardTraffic_step.
  destruct (pump_one_limiter info step st) as (Hp & Hd & Hb).
  destruct (fst (pump_one info step st)).
  - destruct (IH (snd (pump_one info step st))) as (Hp' & Hd' & Hb').
    split_and!; [congruence | congruence |].
    intros k Hk. rewrite Hb', Hb; done.
  - done.
Qed.

(** The worker as a whole. *)
Lemma handleClient_limiter cs env st :
  let info := snd (extractClientInfo cs (peer env) (peeked env) (mkClientInfo "" "")) in
  clientPolicies_ (rateLimiter_ (handleClient cs env st)) = clientPolicies_ (rateLimiter_ st)
  ∧ defaultPolicy_ (rateLimiter_ (handleClient cs env st)) = defaultPolicy_ (rateLimiter_ st)
  ∧ ∀ k, k ≠ bucket_key (ip info) (clientId info) →
      buckets_ (rateLimiter_ (handleClient cs env st)) !! k
      = buckets_ (rateLimiter_ st) !! k.
Proof.
  cbv zeta. unfold handleClient.
  destruct (extractClientInfo _ _ _ _) as [ok info]. cbn [snd].
  destruct ok; cbn [negb]; [|done].
  destruct (broker env); cbn [connectToBroker negb]; [done|done|].
  cbn [count rateLimiter_ sys].
  apply (forwardTraffic_limiter info (pump env) (sys (SocketCreate BrokerSocket) st)).
Qed.

End IsolationFacts.

(** X24. The proxy never uses the per-client policies of its configuration:
    a worker changes neither the default policy nor the override table of the
    limiter, and on the box built from a configuration the policy in force
    for every client is the global one, whatever the per-client table of the
    configuration holds. *)
Theorem proxy_applies_global_policy_only
    (char_is_signed : bool) (env : ConnEnv) (st : ThrottleBox)
    (c : Cfg.Config) (id : string) :
  clientPolicies_ (rateLimiter_ (handleClient char_is_signed env st))
  = clientPolicies_ (rateLimiter_ st)
  ∧ defaultPolicy_ (rateLimiter_ (handleClient char_is_signed env st))
    = defaultPolicy_ (rateLimiter_ st)
  ∧ effective_policy
      (rateLimiter_ (handleClient char_is_signed env (ThrottleBox_new (Cfg.globalPolicy_ c))))
      id
    = Cfg.globalPolicy_ c.
Proof.
  destruct (handleClient_limiter char_is_signed env st) as (Hp & Hd & _).
  split_and!; [done|done|].
  destruct (handleClient_limiter char_is_signed env (ThrottleBox_new (Cfg.globalPolicy_ c)))
    as (Hp' & Hd' & _).
  unfold effective_policy. rewrite Hp', Hd'. cbn. by rewrite lookup_empty.
Qed.

(** X25. A connection can only spend from one bucket: whatever a worker
    reads and however long it runs, every bucket other than the one of the
    Client-ID it extracted from the peek is as it was before. *)
Theorem handleClient_touches_one_bucket
    (char_is_signed : bool) (env : ConnEnv) (st : ThrottleBox) (k : string) :
  k ≠ clientId (snd (extractClientInfo char_is_signed (peer env) (peeked env)
                       (mkClientInfo "" ""))) →
  buckets_ (rateLimiter_ (handleClient char_is_signed env st)) !! k
  = buckets_ (rateLimiter_ st) !! k.
Proof.
  intros Hk.
  destruct (handleClient_limiter char_is_signed env st) as (_ & _ & Hb).
  destruct (Z.ltb_spec (bytesRead (peeked env)) 10) as [Hs|Hl].
  - unfold handleClient.
    pose proof (extractClientInfo_short char_is_signed (peer env) (peeked env)
                  (mkClientInfo "" "") Hs) as E.
    destruct (extractClientInfo _ _ _ _) as [ok info]. cbn in E. by subst ok.
  - apply Hb.
    pose proof (extractClientInfo_enough char_is_signed (peer env) (peeked env)
                  (mkClientInfo "" "") Hl) as E.
    unfold extractClientInfo in *.
    destruct (bytesRead (peeked env) <? 10); [done|]. cbn [snd fst ip clientId] in *.
    unfold bucket_key.
    destruct (String.eqb (parseClientId _ _ _) "") eqn:Ee; cbn [clientId ip] in *.
    + done.
    + by rewrite Ee.
Qed.

Lemma handleClient_touches_one_bucket_witness :
  buckets_ (rateLimiter_ (handleClient true Data.env_anonymous Data.box0)) !! "sensor-1"
  = buckets_ (rateLimiter_ Data.box0) !! "sensor-1".
Proof.
  apply (handleClient_touches_one_bucket true Data.env_anonymous Data.box0 "sensor-1").
  vm_compute. congruence.
Defined.

Section StarvationFacts.

Implicit Types (s : RateLimiter) (P : RateLimitPolicy) (B : TokenBucket).

Lemma SFltb_finite (m1 m2 : positive) (e1 e2 : Z) :
  SFltb (S754_finite false m1 e1) (S754_finite false m2 e2) = true
  ↔ e1 < e2 ∨ (e1 = e2 ∧ Zpos m1 < Zpos m2).
Proof.
  unfold SFltb, SFcompare. fold (Pos.compare m1 m2).
  destruct (Z.compare_spec e1 e2) as [He|He|He].
  - destruct (Pos.compare_spec m1 m2) as [Hm|Hm|Hm]; split; intros H; try done; lia.
  - split; [by left|done].
  - split; [done|lia].
Qed.

Lemma Prim2SF_infinity : Prim2SF PrimFloat.infinity = S754_infinity false.
Proof. reflexivity. Qed.

(** A float below [1.0] is not at least [1.0]. *)
Lemma below_one_not_geb (x : spec_float) :
  SFltb x SF.one = true → SFleb SF.one x = false.
Proof.
  destruct x as [sx|[]| |[] m e]; try done.
  unfold SF.one. rewrite SFltb_finite. intros H.
  destruct (SFleb _ _) eqn:E; [|done]. apply SFleb_finite in E. lia.
Qed.

(** A float below [1.0] is below a capacity of at least one. *)
Lemma below_one_below_burst (x : spec_float) (z : Z) :
  1 ≤ z < 2 ^ 53 → SFltb x SF.one = true →
  SFltb x (Prim2SF (Num.double_of_Z z)) = true.
Proof.
  intros Hz Hx. pose proof (leb_one_burst z Hz) as H1.
  rewrite FloatAxioms.leb_spec, Prim2SF_one in H1.
  rewrite double_of_Z_spec in * by lia.
  destruct (binary_normalize_small z) as [E | (m & e & E & _)]; [lia | |]; rewrite E in *.
  - done.
  - unfold SF.one in *. apply SFleb_finite in H1.
    destruct x as [sx|[]| |[] mx ex]; try done.
    apply SFltb_finite in Hx. apply SFltb_finite. lia.
Qed.

(** No time, no tokens: the product of zero seconds and a finite rate is a
    zero. *)
Lemma zero_seconds_of_finite_rate (rate : float) :
  PrimFloat.ltb (PrimFloat.abs rate) PrimFloat.infinity = true →
  ∃ sz, Prim2SF (PrimFloat.mul 0 rate) = S754_zero sz.
Proof.
  rewrite FloatAxioms.ltb_spec, FloatAxioms.abs_spec, Prim2SF_infinity,
    FloatAxioms.mul_spec, Prim2SF_zero.
  destruct (Prim2SF rate) as [sr|sr| |sr m e]; try done; intros _; by eexists.
Qed.

Lemma add_zero_below_one (x : spec_float) (sz : bool) :
  SFltb x SF.one = true → SFltb (SF64add x (S754_zero sz)) SF.one = true.
Proof. destruct x as [[]|[]| |[] m e], sz; done. Qed.

(** A refill in the millisecond of the previous one: tokens below one stay
    below one, and the refill instant moves on. *)
Lemma refillBucket_same_millisecond now P B :
  lastRefill B ≠ Chrono.epoch →
  lastRefill B ≤ now < lastRefill B + Chrono.NS_PER_MS →
  PrimFloat.ltb (PrimFloat.abs (maxMessagesPerSec P)) PrimFloat.infinity = true →
  1 ≤ burstSize P < 2 ^ 31 →
  PrimFloat.ltb (tokens B) 1 = true →
  PrimFloat.ltb (tokens (refillBucket now P B)) 1 = true
  ∧ PrimFloat.leb 1 (tokens (refillBucket now P B)) = false.
Proof.
  intros Hl Hnow Hrate Hb Ht. unfold refillBucket.
  destruct (Z.eqb_spec (lastRefill B) Chrono.epoch); [done|]. cbv zeta. cbn [tokens].
  assert (Chrono.to_milliseconds (now - lastRefill B) = 0) as ->.
  { unfold Chrono.to_milliseconds, Chrono.NS_PER_MS in *. apply Z.quot_small. lia. }
  change (PrimFloat.div (Num.double_of_Z 0) 1000) with 0%float.
  destruct (zero_seconds_of_finite_rate _ Hrate) as [sz Hz].
  rewrite FloatAxioms.ltb_spec, Prim2SF_one in Ht.
  assert (Hadd : SFltb (Prim2SF (PrimFloat.add (tokens B)
                          (PrimFloat.mul 0 (maxMessagesPerSec P)))) SF.one = true).
  { rewrite FloatAxioms.add_spec, Hz. by apply add_zero_below_one. }
  assert (Hmin : Num.std_min (Num.double_of_Z (burstSize P))
                   (PrimFloat.add (tokens B) (PrimFloat.mul 0 (maxMessagesPerSec P)))
                 = PrimFloat.add (tokens B) (PrimFloat.mul 0 (maxMessagesPerSec P))).
  { unfold Num.std_min. rewrite FloatAxioms.ltb_spec.
    rewrite below_one_below_burst; [done | lia | done]. }
  rewrite Hmin, FloatAxioms.ltb_spec, FloatAxioms.leb_spec, Prim2SF_one.
  split; [done | by apply below_one_not_geb].
Qed.

(** The decision that follows such a refill is a denial, and it keeps the
    tokens. *)
Lemma checkBucket_same_millisecond now nowRefill P B :
  lastRefill B ≠ Chrono.epoch →
  lastRefill B ≤ nowRefill < lastRefill B + Chrono.NS_PER_MS →
  PrimFloat.ltb (PrimFloat.abs (maxMessagesPerSec P)) PrimFloat.infinity = true →
  1 ≤ burstSize P < 2 ^ 31 →
  PrimFloat.ltb (tokens B) 1 = true →
  fst (checkBucket now nowRefill P B) = false
  ∧ lastRefill (snd (checkBucket now nowRefill P B)) = nowRefill
  ∧ PrimFloat.ltb (tokens (snd (checkBucket now nowRefill P B))) 1 = true.
Proof.
  intros Hl Hnow Hrate Hb Ht.
  destruct (refillBucket_same_millisecond nowRefill P B Hl Hnow Hrate Hb Ht) as [Hlt Hge].
  pose proof (refillBucket_lastRefill nowRefill P B) as HlR.
  unfold checkBucket, Num.geb. cbv zeta.
  destruct (isBlocked _ && (now <? _)); cbn [fst snd]; [done|].
  destruct (isBlocked _ && (_ <=? now)); cbn [tokens lastRefill]; rewrite Hge;
    destruct (0 <? blockDurationSec P); cbn [fst snd tokens lastRefill]; done.
Qed.

End StarvationFacts.

(** X26. A client that calls faster than once a millisecond gets no refill:
    [refillBucket] counts whole milliseconds since the previous call and then
    moves [lastRefill] to now, so the part of a millisecond is lost each time.
    Once the bucket of a key holds less than one token, every call that
    follows the previous one by less than a millisecond is denied, however
    many there are and whatever the (finite) rate is. *)
Theorem rapid_calls_are_never_refilled
    (ip clientId : string) (s : RateLimiter) (B : TokenBucket)
    (times : list (Chrono.time_point * Chrono.time_point)) :
  let P := effective_policy s clientId in
  buckets_ s !! bucket_key ip clientId = Some B →
  0 < lastRefill B →
  PrimFloat.ltb (tokens B) 1 = true →
  PrimFloat.ltb (PrimFloat.abs (maxMessagesPerSec P)) PrimFloat.infinity = true →
  1 ≤ burstSize P < 2 ^ 31 →
  rapid (lastRefill B) times →
  fst (run_calls (calls_at ip clientId times) s) = repeat false (length times).
Proof.
  cbv zeta. revert s B. induction times as [|t times IH]; intros s B HB Hl Ht Hrate Hb Hr;
    [done|].
  destruct Hr as [Hnow Hr].
  cbn [calls_at map run_calls length repeat fst]. fold (calls_at ip clientId times).
  unfold allow_call. cbn [call_now call_nowRefill call_ip call_clientId].
  destruct (checkBucket_same_millisecond t.1 t.2 (effective_policy s clientId) B)
    as (Hd & HlR & Hlt); [unfold Chrono.epoch; lia | done..|].
  destruct (allow_policies t.1 t.2 ip clientId s) as [Hp Hdp].
  pose proof (allow_buckets_key t.1 t.2 ip clientId s) as Hk.
  rewrite HB in Hk. change (default TokenBucket_default (Some B)) with B in Hk.
  assert (Hfst : fst (allow t.1 t.2 ip clientId s) = false).
  { rewrite allow_unfold. cbn [fst]. rewrite HB. exact Hd. }
  assert (HP : effective_policy (snd (allow t.1 t.2 ip clientId s)) clientId
               = effective_policy s clientId).
  { unfold effective_policy. by rewrite Hp, Hdp. }
  rewrite Hfst. f_equal.
  apply (IH _ _ Hk); rewrite ?HP, ?HlR; try done. lia.
Qed.

Lemma rapid_calls_are_never_refilled_witness :
  fst (run_calls (calls_at "1.1.1.1" "c" Data.fast_times) Data.after_fast)
  = repeat false (length Data.fast_times).
Proof.
  apply (rapid_calls_are_never_refilled "1.1.1.1" "c" Data.after_fast
           {| tokens := 0%float; lastRefill := Data.t0; blockedUntil := Chrono.epoch;
              isBlocked := false |} Data.fast_times).
  - vm_compute. reflexivity.
  - vm_compute. reflexivity.
  - vm_compute. reflexivity.
  - vm_compute. reflexivity.
  - vm_compute. split; congruence.
  - vm_compute. repeat split; congruence.
Defined.
